(** * nonmanifold-laplacian: the tufted-cover demo driver ([src/main.cpp])

    A shallow embedding of the driver program: the vertex-separated tufted
    cover ([generateVertexSeparatedTuftedCover]), the tracing of intrinsic
    edges over the bubbled surface ([generateVisualization]), the sparse
    matrix writer ([saveMatrix]), the GUI callback ([myCallback]) and the
    command line entry point ([main]).

    The driver is glue around geometry-central, polyscope, the args library
    and the C++ streams.  Their operations are not part of the program
    text; they are taken as parameters (the classes [GeometryCentral],
    [BubbleOffsetLib], [IOStreams] and [ArgsLibrary]), and every statement
    below holds for all of them.  What the embedding fixes is what
    [main.cpp] itself does with their results.  The module [Triangle] is a
    small instance of the libraries on which the program can be run. *)

From Stdlib Require Import ZArith QArith Qfield String Ascii List Lia Lqa.
From Stdlib Require Import DecimalString.
From Stdlib Require Import PrimFloat Uint63 SpecFloat FloatOps.
From stdpp Require Import base option list strings gmap.

Set Default Proof Using "Type".
Local Open Scope Z_scope.

(** ** Machine integers

    [int] is a 32-bit two's complement integer, [size_t] a 64-bit unsigned
    one.  Both are carried by [Z] with the wrap-around written out. *)

Definition INT_MAX : Z := 2 ^ 31 - 1.
Definition INT_MIN : Z := - 2 ^ 31.

Definition wrap_int (z : Z) : Z := (z + 2 ^ 31) mod 2 ^ 32 - 2 ^ 31.
Definition int_add (a b : Z) : Z := wrap_int (a + b).

Definition wrap_size_t (z : Z) : Z := z mod 2 ^ 64.
Definition size_t_add (a b : Z) : Z := wrap_size_t (a + b).

(** ** Scalars

    The program computes with [double].  The operations it uses are
    collected in an interface with two instances: IEEE binary64 (the
    kernel's primitive floats), which is what the program runs on, and the
    rationals, which is the exact arithmetic the barycentric identities are
    stated in. *)

Class Scalar (R : Type) : Type := {
  of_int : Z -> R;          (* static_cast<double>(int), int -> double promotion *)
  lit_0 : R;                (* 0 *)
  lit_1 : R;                (* 1. *)
  lit_999 : R;              (* .999 *)
  lit_2 : R;                (* .2 *)
  lit_1em6 : R;             (* 1e-6 *)
  to_float : R -> R;        (* the value a float variable holds after assignment *)
  undefined_scalar : R;     (* std::numeric_limits<double>::quiet_NaN() *)
  radd : R -> R -> R;
  rsub : R -> R -> R;
  rmul : R -> R -> R;
  rdiv : R -> R -> R;
  rgtb : R -> R -> bool     (* a > b *)
}.

Definition double_of_int (z : Z) : float :=
  if z <? 0 then PrimFloat.opp (PrimFloat.of_uint63 (Uint63.of_Z (- z)))
  else PrimFloat.of_uint63 (Uint63.of_Z z).

(* Rounding a binary64 to binary32 (24 bits of precision, emax 128); the
   result is again held in a binary64, which represents it exactly. *)
Definition double_to_float (d : float) : float :=
  match Prim2SF d with
  | S754_finite s m e => SF2Prim (binary_normalize 24 128 (cond_Zopp s (Zpos m)) e s)
  | _ => d
  end.

#[local] Set Warnings "-inexact-float".
#[export] Instance double_Scalar : Scalar float := {
  of_int := double_of_int;
  lit_0 := 0%float;
  lit_1 := 1%float;
  lit_999 := 0.999%float;
  lit_2 := 0.2%float;
  lit_1em6 := 1e-6%float;
  to_float := double_to_float;
  undefined_scalar := PrimFloat.nan;
  radd := PrimFloat.add;
  rsub := PrimFloat.sub;
  rmul := PrimFloat.mul;
  rdiv := PrimFloat.div;
  rgtb := fun a b => PrimFloat.ltb b a
}.
#[local] Set Warnings "+inexact-float".

(** Exact arithmetic has no NaN and no narrowing; [undefined_scalar] is
    only ever stored in the coordinate slot of a point that is not a face
    point. *)
#[export] Instance exact_Scalar : Scalar Q := {
  of_int := inject_Z;
  lit_0 := 0%Q;
  lit_1 := 1%Q;
  lit_999 := (999 # 1000)%Q;
  lit_2 := (2 # 10)%Q;
  lit_1em6 := (1 # 1000000)%Q;
  to_float := fun q => q;
  undefined_scalar := 0%Q;
  radd := Qplus;
  rsub := Qminus;
  rmul := Qmult;
  rdiv := Qdiv;
  rgtb := fun a b => negb (Qle_bool a b)
}.

(** ** Vectors, mesh handles, surface points *)

Record Vector3 (R : Type) : Type := mkVector3 { x : R; y : R; z : R }.
Arguments mkVector3 {R} _ _ _.
Arguments x {R} _.
Arguments y {R} _.
Arguments z {R} _.

Section VectorOps.
Context {R : Type} `{Scalar R}.

(* operator*(double, Vector3) *)
Definition scale (s : R) (v : Vector3 R) : Vector3 R :=
  mkVector3 (rmul s (x v)) (rmul s (y v)) (rmul s (z v)).

(* operator+(Vector3, Vector3) *)
Definition vadd (u v : Vector3 R) : Vector3 R :=
  mkVector3 (radd (x u) (x v)) (radd (y u) (y v)) (radd (z u) (z v)).

(* Vector3::undefined() *)
Definition undefined_vector : Vector3 R :=
  mkVector3 undefined_scalar undefined_scalar undefined_scalar.

Definition coord_sum (v : Vector3 R) : R := radd (radd (x v) (y v)) (z v).
End VectorOps.

(** Mesh elements are handles: indices into the tables of their mesh. *)
Definition Vertex := nat.
Definition Edge := nat.
Definition Face := nat.
Definition Halfedge := nat.

(** geometry-central's [SurfacePoint]: a tag and the data of that tag. *)
Inductive SurfacePoint (R : Type) : Type :=
| VertexPoint (v : Vertex)
| EdgePoint (e : Edge) (tEdge : R)
| FacePoint (f : Face) (coords : Vector3 R).
Arguments VertexPoint {R} _.
Arguments EdgePoint {R} _ _.
Arguments FacePoint {R} _ _.

(** The [faceCoords] member; it is [Vector3::undefined()] unless the point
    was built in a face. *)
Definition faceCoords {R} `{Scalar R} (p : SurfacePoint R) : Vector3 R :=
  match p with
  | FacePoint _ c => c
  | _ => undefined_vector
  end.

(** ** Interpolation between two traced points (main.cpp, lines 142-148) *)

Section Interpolation.
Context {R : Type} `{Scalar R}.

(* double tInterp = static_cast<double>(iInterp + 1) / (pointsPerTriEdge + 1); *)
Definition tInterp (pointsPerTriEdge iInterp : Z) : R :=
  rdiv (of_int (int_add iInterp 1)) (of_int (int_add pointsPerTriEdge 1)).

(* Vector3 baryInterp = (1. - tInterp) * pAF.faceCoords + tInterp * pBF.faceCoords; *)
Definition baryInterp (t : R) (coordsA coordsB : Vector3 R) : Vector3 R :=
  vadd (scale (rsub lit_1 t) coordsA) (scale t coordsB).

(* The body of the inner loop: SurfacePoint pInterp(sharedF, baryInterp). *)
Definition pInterp (pointsPerTriEdge : Z) (sharedF : Face)
    (pAF pBF : SurfacePoint R) (iInterp : Z) : SurfacePoint R :=
  FacePoint sharedF
    (baryInterp (tInterp pointsPerTriEdge iInterp) (faceCoords pAF) (faceCoords pBF)).

(* for (int iInterp = 0; iInterp < pointsPerTriEdge; iInterp++): the
   points handed to pushLinePoint, in order. *)
Definition interpolated (pointsPerTriEdge : Z) (sharedF : Face)
    (pAF pBF : SurfacePoint R) : list (SurfacePoint R) :=
  map (pInterp pointsPerTriEdge sharedF pAF pBF) (seqZ 0 pointsPerTriEdge).
End Interpolation.

(** ** Outcomes and effects

    A call returns, throws, or runs into undefined behaviour (an index out
    of range, [front()] of an empty vector).  Functions that update the
    program's variables are state transformers over those variables; the
    state reached is reported also when the call does not return. *)

Inductive Result (A : Type) : Type :=
| Ok (a : A)
| Throw (what : string)
| Undefined.
Arguments Ok {A} _.
Arguments Throw {A} _.
Arguments Undefined {A}.

Definition Prog (S A : Type) : Type := S -> Result A * S.

#[export] Instance Prog_ret {S} : MRet (Prog S) := fun A a s => (Ok a, s).

#[export] Instance Prog_bind {S} : MBind (Prog S) := fun A B k m s =>
  match m s with
  | (Ok a, s') => k a s'
  | (Throw w, s') => (Throw w, s')
  | (Undefined, s') => (Undefined, s')
  end.

Definition get {S} : Prog S S := fun s => (Ok s, s).
Definition put {S} (s : S) : Prog S unit := fun _ => (Ok tt, s).
Definition lift {S A} (r : Result A) : Prog S A := fun s => (r, s).

(* A range-for or counted loop: the body runs on each item in turn and the
   loop is left at the first body that does not return. *)
Fixpoint for_each {S X} (items : list X) (body : X -> Prog S unit) : Prog S unit :=
  match items with
  | [] => mret tt
  | i :: rest => body i ≫= fun _ => for_each rest body
  end.

(* operator[] of a vector or of a mesh data array: no bounds check. *)
Definition at_index {A} (l : list A) (i : nat) : Result A :=
  match l !! i with
  | Some a => Ok a
  | None => Undefined
  end.

(* std::vector::front() *)
Definition front {A} (l : list A) : Result A :=
  match l with
  | a :: _ => Ok a
  | [] => Undefined
  end.

(* lines.back().push_back(x) *)
Definition back_push_back {A} (ls : list (list A)) (a : A) : Result (list (list A)) :=
  match reverse ls with
  | b :: before => Ok (reverse before ++ [b ++ [a]])
  | [] => Undefined
  end.

(** ** The world outside the program

    Standard output and error, the files written, and the calls made to
    polyscope, in the order they were made. *)

Inductive PolyscopeCall (R : Type) : Type :=
| Init
| RegisterSurfaceMesh (name : string)
    (vertexCoordinates : list (Vector3 R)) (polygons : list (list nat))
| AddSurfaceGraphQuantity (meshName name : string)
    (lines : list (list (Vector3 R))) (enabled : bool)
| SetUserCallback
| Show.
Arguments Init {R}.
Arguments RegisterSurfaceMesh {R} _ _ _.
Arguments AddSurfaceGraphQuantity {R} _ _ _ _.
Arguments SetUserCallback {R}.
Arguments Show {R}.

Record World (R : Type) : Type := mkWorld {
  w_stdout : string;
  w_stderr : string;
  w_files : gmap string string;
  w_polyscope : list (PolyscopeCall R)
}.
Arguments mkWorld {R} _ _ _ _.
Arguments w_stdout {R} _.
Arguments w_stderr {R} _.
Arguments w_files {R} _.
Arguments w_polyscope {R} _.

Definition endl : string := String (ascii_of_nat 10) EmptyString.

Definition cout {R} (text : string) : Prog (World R) unit := fun w =>
  (Ok tt, mkWorld (w_stdout w +:+ text) (w_stderr w) (w_files w) (w_polyscope w)).

Definition cerr {R} (text : string) : Prog (World R) unit := fun w =>
  (Ok tt, mkWorld (w_stdout w) (w_stderr w +:+ text) (w_files w) (w_polyscope w)).

Definition polyscope_call {R} (c : PolyscopeCall R) : Prog (World R) unit := fun w =>
  (Ok tt, mkWorld (w_stdout w) (w_stderr w) (w_files w) (w_polyscope w ++ [c])).

(** ** Meshes and geometry

    The mesh classes are geometry-central's; the program only passes them
    on.  The geometry objects are modelled by the data the program reads
    and writes in them. *)

Class MeshTypes : Type := {
  SurfaceMesh : Type;
  ManifoldSurfaceMesh : Type;
  asSurfaceMesh : ManifoldSurfaceMesh -> SurfaceMesh;  (* the base class *)
  Signposts : Type                (* a triangulation's angular bookkeeping *)
}.

Record SimplePolygonMesh (R : Type) : Type := mkSimplePolygonMesh {
  polygons : list (list nat);
  vertexCoordinates : list (Vector3 R)
}.
Arguments mkSimplePolygonMesh {R} _ _.
Arguments polygons {R} _.
Arguments vertexCoordinates {R} _.

Record VertexPositionGeometry (R : Type) `{MeshTypes} : Type := mkVertexPositionGeometry {
  vpg_mesh : SurfaceMesh;
  inputVertexPositions : list (Vector3 R)     (* VertexData<Vector3> *)
}.
Arguments mkVertexPositionGeometry {R _} _ _.
Arguments vpg_mesh {R _} _.
Arguments inputVertexPositions {R _} _.

Record EdgeLengthGeometry (R : Type) `{MeshTypes} : Type := mkEdgeLengthGeometry {
  elg_mesh : ManifoldSurfaceMesh;
  inputEdgeLengths : list R                   (* EdgeData<double> *)
}.
Arguments mkEdgeLengthGeometry {R _} _ _.
Arguments elg_mesh {R _} _.
Arguments inputEdgeLengths {R _} _.

Record SignpostIntrinsicTriangulation (R : Type) `{MeshTypes} : Type :=
  mkSignpostIntrinsicTriangulation {
  inputMesh : ManifoldSurfaceMesh;            (* the extrinsic mesh it sits on *)
  tri_mesh : ManifoldSurfaceMesh;             (* signpostTri->mesh, the intrinsic mesh *)
  intrinsicEdgeLengths : list R;              (* EdgeData<double> *)
  signposts : Signposts
}.
Arguments mkSignpostIntrinsicTriangulation {R _} _ _ _ _.
Arguments inputMesh {R _} _.
Arguments tri_mesh {R _} _.
Arguments intrinsicEdgeLengths {R _} _.
Arguments signposts {R _} _.

(** An Eigen sparse matrix in its default (column-major) storage: for each
    outer index, a column, the stored coefficients of that column as pairs
    of inner index, the row, and value. *)
Record SparseMatrix (T : Type) : Type := mkSparseMatrix {
  outer : list (list (Z * T))
}.
Arguments mkSparseMatrix {T} _.
Arguments outer {T} _.

(** geometry-central, as far as the driver calls it.  Handles are indices,
    so an operation that in C++ reaches the mesh through a handle takes the
    mesh as an argument here. *)
Class GeometryCentral (R : Type) `{MeshTypes} : Type := {
  copyToSurfaceMesh : SurfaceMesh -> SurfaceMesh;
  nVertices : SurfaceMesh -> nat;
  (* requireEdgeLengths(); edgeLengths *)
  edgeLengths : VertexPositionGeometry R -> list R;
  (* updates the mesh and the edge lengths it is given *)
  buildIntrinsicTuftedCover :
    SurfaceMesh -> list R -> VertexPositionGeometry R -> SurfaceMesh * list R;
  (* updates the mesh; returns, per vertex, the vertex it came from *)
  separateNonmanifoldVertices : SurfaceMesh -> SurfaceMesh * list Vertex;
  toManifoldMesh : SurfaceMesh -> Result ManifoldSurfaceMesh;
  printStatistics : ManifoldSurfaceMesh -> string;
  (* updates the edge lengths it is given *)
  mollifyIntrinsic : ManifoldSurfaceMesh -> list R -> R -> list R;
  newSignpostIntrinsicTriangulation :
    ManifoldSurfaceMesh -> EdgeLengthGeometry R -> SignpostIntrinsicTriangulation R;
  flipToDelaunay : SignpostIntrinsicTriangulation R -> SignpostIntrinsicTriangulation R;
  edges : ManifoldSurfaceMesh -> list Edge;
  halfedge : ManifoldSurfaceMesh -> Edge -> Halfedge;
  (* a query: it reads the triangulation and leaves it as it is *)
  traceHalfedge :
    SignpostIntrinsicTriangulation R -> Halfedge -> bool -> Result (list (SurfacePoint R));
  sharedFace : ManifoldSurfaceMesh -> SurfacePoint R -> SurfacePoint R -> Face;
  inFace : ManifoldSurfaceMesh -> SurfacePoint R -> Face -> Result (SurfacePoint R);
  (* SimplePolygonMesh(filename): reads the mesh file *)
  readSimplePolygonMesh : gmap string string -> string -> Result (SimplePolygonMesh R);
  stripFacesWithDuplicateVertices : SimplePolygonMesh R -> SimplePolygonMesh R;
  stripUnusedVertices : SimplePolygonMesh R -> SimplePolygonMesh R;
  triangulate : SimplePolygonMesh R -> SimplePolygonMesh R;
  makeGeneralHalfedgeAndGeometry :
    list (list nat) -> list (Vector3 R) -> Result (SurfaceMesh * VertexPositionGeometry R);
  buildTuftedLaplacian :
    SurfaceMesh -> VertexPositionGeometry R -> R -> Result (SparseMatrix R * SparseMatrix R)
}.

(** Modelled from the spec: [bubble_offset.h] is not part of the sources at
    hand.  [subdivideRounded] builds the inflated rendering surface;
    [queryPoint] is "a deterministic, pure function of the current scale
    and the point's location", over the geometry the offset was built
    from. *)
Class BubbleOffsetLib (R : Type) `{MeshTypes} : Type := {
  subdivideRounded :
    ManifoldSurfaceMesh -> VertexPositionGeometry R -> Z -> R -> Z -> Z -> SimplePolygonMesh R;
  queryPoint : VertexPositionGeometry R -> R -> SurfacePoint R -> Vector3 R
}.

(** ** Program variables *)

(* The variables "used only during visualization", once they are set. *)
Record TuftedCover (R : Type) `{MeshTypes} : Type := mkTuftedCover {
  tuftedMesh : SurfaceMesh;
  manifoldTuftedMesh : ManifoldSurfaceMesh;
  tuftedGeom : VertexPositionGeometry R;
  tuftedIntrinsicGeom : EdgeLengthGeometry R;
  signpostTri : SignpostIntrinsicTriangulation R
}.
Arguments mkTuftedCover {R _} _ _ _ _ _.
Arguments tuftedMesh {R _} _.
Arguments manifoldTuftedMesh {R _} _.
Arguments tuftedGeom {R _} _.
Arguments tuftedIntrinsicGeom {R _} _.
Arguments signpostTri {R _} _.

(* The state of a GUI session: the cover, the "Viz Parameters" and the
   world.  [bubbleScale] is a float in the source; it is carried as a
   scalar. *)
Record Session (R : Type) `{MeshTypes} : Type := mkSession {
  cover : TuftedCover R;
  bubbleScale : R;
  subdivLevel : Z;
  pointsPerTriEdge : Z;
  world : World R
}.
Arguments mkSession {R _} _ _ _ _ _.
Arguments cover {R _} _.
Arguments bubbleScale {R _} _.
Arguments subdivLevel {R _} _.
Arguments pointsPerTriEdge {R _} _.
Arguments world {R _} _.

(* operator[] on the left of an assignment. *)
Definition set_index {A} (l : list A) (i : nat) (a : A) : Result (list A) :=
  if decide (i < length l)%nat then Ok (<[i := a]> l) else Undefined.

(** ** generateVertexSeparatedTuftedCover (main.cpp, lines 49-89) *)

Section TuftedCoverConstruction.
Context {R : Type} `{Scalar R} `{MeshTypes} `{!GeometryCentral R}.

(* float mollifyFactor = 0.; *)
Definition initial_mollifyFactor : R := lit_0.

(* for (Vertex v : tuftedMesh->vertices())
     inputVertexPositions[v] = inputVertexPositions[origVert[v]];
   The array is read and written in place, vertex by vertex. *)
Definition copyOriginalPosition (origVert : list Vertex) (v : Vertex)
    : Prog (list (Vector3 R)) unit :=
  positions ← get;
  orig ← lift (at_index origVert v);
  p ← lift (at_index positions orig);
  positions' ← lift (set_index positions v p);
  put positions'.

(* The invariant of that loop: the vertices below k hold the position of
   their original vertex, the others are as the loop found them. *)
Definition copied_below (origVert : list Vertex) (original grown : list (Vector3 R))
    (k : nat) (positions : list (Vector3 R)) : Prop :=
  length positions = length origVert /\
  (forall v orig : Vertex, (v < k)%nat -> origVert !! v = Some orig ->
     positions !! v = original !! orig) /\
  (forall v : Vertex, (k <= v)%nat -> positions !! v = grown !! v).

(* "Split the vertices" (lines 62-66).  The position array follows the
   mesh: it grows with the vertices the separation adds, the new slots
   holding a default Vector3. *)
Definition splitTheVertices (mesh : SurfaceMesh) (geom : VertexPositionGeometry R)
    : Result (SurfaceMesh * list Vertex * VertexPositionGeometry R) :=
  let '(mesh', origVert) := separateNonmanifoldVertices mesh in
  let grown := resize (nVertices mesh') (mkVector3 lit_0 lit_0 lit_0)
                 (inputVertexPositions geom) in
  match for_each (seq 0 (nVertices mesh')) (copyOriginalPosition origVert) grown with
  | (Ok _, positions) => Ok (mesh', origVert, mkVertexPositionGeometry mesh' positions)
  | (Throw what, _) => Throw what
  | (Undefined, _) => Undefined
  end.

(* "Mollify, if requested" (lines 76-78). *)
Definition mollifyIfRequested (mesh : ManifoldSurfaceMesh) (tuftedEdgeLengths : list R)
    (mollifyFactor : R) : list R :=
  if rgtb mollifyFactor lit_0
  then mollifyIntrinsic mesh tuftedEdgeLengths mollifyFactor
  else tuftedEdgeLengths.

(* "Create a copy of the mesh / geometry to operate on" and "Build the
   cover" (lines 51-59): the mesh and the geometry on it afterwards. *)
Definition buildTheCover (mesh : SurfaceMesh) (geometry : VertexPositionGeometry R)
    : SurfaceMesh * VertexPositionGeometry R :=
  let tuftedMesh0 := copyToSurfaceMesh mesh in
  let tuftedGeom0 := mkVertexPositionGeometry tuftedMesh0 (inputVertexPositions geometry) in
  let tuftedEdgeLengths0 := edgeLengths tuftedGeom0 in
  let '(tuftedMesh1, _) :=
    buildIntrinsicTuftedCover tuftedMesh0 tuftedEdgeLengths0 tuftedGeom0 in
  (tuftedMesh1, mkVertexPositionGeometry tuftedMesh1 (inputVertexPositions tuftedGeom0)).

Definition generateVertexSeparatedTuftedCover
    (mesh : SurfaceMesh) (geometry : VertexPositionGeometry R) (mollifyFactor : R)
    : Prog (World R) (TuftedCover R) :=
  (* Create a copy of the mesh / geometry to operate on; build the cover *)
  let built := buildTheCover mesh geometry in
  (* Split the vertices *)
  '(tuftedMesh2, _, tuftedGeom2) ← lift (splitTheVertices (fst built) (snd built));
  (* Make it manifold *)
  manifoldMesh ← lift (toManifoldMesh tuftedMesh2);
  _ ← cout (printStatistics manifoldMesh);
  let tuftedGeom3 :=
    mkVertexPositionGeometry (asSurfaceMesh manifoldMesh) (inputVertexPositions tuftedGeom2) in
  let tuftedEdgeLengths3 := edgeLengths tuftedGeom3 in
  (* Mollify, if requested *)
  let tuftedEdgeLengths4 := mollifyIfRequested manifoldMesh tuftedEdgeLengths3 mollifyFactor in
  let intrinsicGeom := mkEdgeLengthGeometry manifoldMesh tuftedEdgeLengths4 in
  (* Create a signpost triangulation, flip to delaunay *)
  let tri := newSignpostIntrinsicTriangulation manifoldMesh intrinsicGeom in
  mret (mkTuftedCover tuftedMesh2 manifoldMesh tuftedGeom3 intrinsicGeom (flipToDelaunay tri)).

End TuftedCoverConstruction.

(** ** generateVisualization (main.cpp, lines 91-158) *)

(* The variables the tracing loop updates: the triangulation (a global)
   and the local [lines]. *)
Record Tracing (R : Type) `{MeshTypes} : Type := mkTracing {
  tr_signpostTri : SignpostIntrinsicTriangulation R;
  tr_lines : list (list (Vector3 R))
}.
Arguments mkTracing {R _} _ _.
Arguments tr_signpostTri {R _} _.
Arguments tr_lines {R _} _.

Section Visualization.
Context {R : Type} `{Scalar R} `{MeshTypes} `{!GeometryCentral R} `{!BubbleOffsetLib R}.

(* signpostTri->intrinsicEdgeLengths[e] = len *)
Definition set_intrinsicEdgeLength (tri : SignpostIntrinsicTriangulation R)
    (e : Edge) (len : R) : Result (SignpostIntrinsicTriangulation R) :=
  match set_index (intrinsicEdgeLengths tri) e len with
  | Ok lengths => Ok (mkSignpostIntrinsicTriangulation
                        (inputMesh tri) (tri_mesh tri) lengths (signposts tri))
  | Throw what => Throw what
  | Undefined => Undefined
  end.

Section OneRun.
(* The BubbleOffset built from tuftedGeom, its relativeScale (set to
   bubbleScale) and pointsPerTriEdge, as one run of the function has them. *)
Variable bubbleGeom : VertexPositionGeometry R.
Variable relativeScale : R.
Variable nPoints : Z.

(* auto pushLinePoint = [&](SurfacePoint p) { ... lines.back().push_back(newPos); } *)
Definition pushLinePoint (p : SurfacePoint R) : Prog (Tracing R) unit :=
  st ← get;
  let newPos := queryPoint bubbleGeom relativeScale p in
  lines ← lift (back_push_back (tr_lines st) newPos);
  put (mkTracing (tr_signpostTri st) lines).

(* Lines 119-124: shorten the edge, trace, restore the length. *)
Definition traceShortened (e : Edge) : Prog (Tracing R) (list (SurfacePoint R)) :=
  st ← get;
  let tri := tr_signpostTri st in
  let he := halfedge (tri_mesh tri) e in
  oldLen ← lift (at_index (intrinsicEdgeLengths tri) e);
  shortened ← lift (set_intrinsicEdgeLength tri e (rmul oldLen lit_999));
  _ ← put (mkTracing shortened (tr_lines st));
  points ← lift (traceHalfedge shortened he false);
  restored ← lift (set_intrinsicEdgeLength shortened e oldLen);
  _ ← put (mkTracing restored (tr_lines st));
  mret points.

(* The body of  for (size_t i = 0; i + 1 < points.size(); i++)  *)
Definition pushSegment (mesh : ManifoldSurfaceMesh) (points : list (SurfacePoint R))
    (i : nat) : Prog (Tracing R) unit :=
  pA ← lift (at_index points i);
  pB ← lift (at_index points (i + 1));
  let sharedF := sharedFace mesh pA pB in
  pAF ← lift (inFace mesh pA sharedF);
  pBF ← lift (inFace mesh pB sharedF);
  _ ← for_each (interpolated nPoints sharedF pAF pBF) pushLinePoint;
  pushLinePoint pB.

(* Lines 126-152: start a new line and fill it. *)
Definition pushLine (mesh : ManifoldSurfaceMesh) (points : list (SurfacePoint R))
    : Prog (Tracing R) unit :=
  st ← get;
  _ ← put (mkTracing (tr_signpostTri st) (tr_lines st ++ [[]]));
  first ← lift (front points);
  _ ← pushLinePoint first;
  for_each (seq 0 (length points - 1)) (pushSegment mesh points).

(* The body of  for (Edge e : signpostTri->mesh.edges())  *)
Definition traceEdge (e : Edge) : Prog (Tracing R) unit :=
  points ← traceShortened e;
  st ← get;
  pushLine (inputMesh (tr_signpostTri st)) points.

End OneRun.

Definition set_signpostTri (c : TuftedCover R) (tri : SignpostIntrinsicTriangulation R)
    : TuftedCover R :=
  mkTuftedCover (tuftedMesh c) (manifoldTuftedMesh c) (tuftedGeom c)
    (tuftedIntrinsicGeom c) tri.

Definition in_world {A} (m : Prog (World R) A) : Prog (Session R) A := fun s =>
  let '(r, w) := m (world s) in
  (r, mkSession (cover s) (bubbleScale s) (subdivLevel s) (pointsPerTriEdge s) w).

(* The tracing loop, run on the session's triangulation with a fresh
   [lines]; it hands back the lines it built. *)
Definition traceAllEdges : Prog (Session R) (list (list (Vector3 R))) := fun s =>
  let c := cover s in
  let tri := signpostTri c in
  let '(r, st) :=
    for_each (edges (tri_mesh tri))
      (traceEdge (tuftedGeom c) (bubbleScale s) (pointsPerTriEdge s))
      (mkTracing tri []) in
  let s' := mkSession (set_signpostTri c (tr_signpostTri st))
              (bubbleScale s) (subdivLevel s) (pointsPerTriEdge s) (world s) in
  match r with
  | Ok _ => (Ok (tr_lines st), s')
  | Throw what => (Throw what, s')
  | Undefined => (Undefined, s')
  end.

Definition generateVisualization : Prog (Session R) unit :=
  s ← get;
  (* Generate the bubbly mesh visualization *)
  let subSoup := subdivideRounded (manifoldTuftedMesh (cover s)) (tuftedGeom (cover s))
                   (subdivLevel s) (bubbleScale s) 0 0 in
  _ ← in_world (polyscope_call
        (RegisterSurfaceMesh "bubble tufted cover" (vertexCoordinates subSoup) (polygons subSoup)));
  (* Trace intrinsic edges across the bubbly mesh *)
  lines ← traceAllEdges;
  in_world (polyscope_call
    (AddSurfaceGraphQuantity "bubble tufted cover" "intrinsic edges" lines true)).

End Visualization.

(** ** Notions used in the statements about tracing

    [line_points] lists the arguments of the successive [pushLinePoint]
    calls for one traced path: the first point, then for each consecutive
    pair the interpolated points followed by the far end of the pair.
    (A segment whose points cannot be brought into the shared face
    contributes nothing; the program throws there.) *)

Section TracingNotions.
Context {R : Type} `{Scalar R} `{MeshTypes} `{!GeometryCentral R}.

Definition segment_points (nPoints : Z) (mesh : ManifoldSurfaceMesh)
    (points : list (SurfacePoint R)) (i : nat) : list (SurfacePoint R) :=
  match points !! i, points !! (i + 1)%nat with
  | Some pA, Some pB =>
      let sharedF := sharedFace mesh pA pB in
      match inFace mesh pA sharedF, inFace mesh pB sharedF with
      | Ok pAF, Ok pBF => interpolated nPoints sharedF pAF pBF ++ [pB]
      | _, _ => []
      end
  | _, _ => []
  end.

Definition line_points (nPoints : Z) (mesh : ManifoldSurfaceMesh)
    (points : list (SurfacePoint R)) : list (SurfacePoint R) :=
  match points with
  | [] => []
  | first :: _ =>
      first :: concat (map (segment_points nPoints mesh points) (seq 0 (length points - 1)))
  end.

(* Every two consecutive points of the path can be brought into the face
   that sharedFace picks for them. *)
Definition consecutive_in_shared_face (mesh : ManifoldSurfaceMesh)
    (points : list (SurfacePoint R)) : Prop :=
  forall (i : nat) (pA pB : SurfacePoint R),
    points !! i = Some pA -> points !! (i + 1)%nat = Some pB ->
    exists pAF pBF : SurfacePoint R,
      inFace mesh pA (sharedFace mesh pA pB) = Ok pAF /\
      inFace mesh pB (sharedFace mesh pA pB) = Ok pBF.

(* The triangulation with the length of edge e replaced. *)
Definition with_length (tri : SignpostIntrinsicTriangulation R) (e : Edge) (len : R)
    : SignpostIntrinsicTriangulation R :=
  mkSignpostIntrinsicTriangulation (inputMesh tri) (tri_mesh tri)
    (<[e := len]> (intrinsicEdgeLengths tri)) (signposts tri).

(* A step of the tracing loop that leaves the triangulation as it found
   it whenever it returns. *)
Definition restores_triangulation {A} (m : Prog (Tracing R) A) : Prop :=
  forall (st st' : Tracing R) (a : A),
    m st = (Ok a, st') -> tr_signpostTri st' = tr_signpostTri st.

(* The session after further calls to polyscope. *)
Definition add_polyscope_calls (s : Session R) (calls : list (PolyscopeCall R)) : Session R :=
  mkSession (cover s) (bubbleScale s) (subdivLevel s) (pointsPerTriEdge s)
    (mkWorld (w_stdout (world s)) (w_stderr (world s)) (w_files (world s))
       (w_polyscope (world s) ++ calls)).

End TracingNotions.

(** ** The ends of a traced path

    geometry-central's navigation from a halfedge: [he.vertex()], where the
    halfedge starts, and [he.twin()], the halfedge that runs back.  The
    driver names both in the line it leaves commented out (line 154). *)
Class HalfedgeNavigation `{MeshTypes} : Type := {
  he_vertex : ManifoldSurfaceMesh -> Halfedge -> Vertex;
  he_twin : ManifoldSurfaceMesh -> Halfedge -> Halfedge
}.

Section TracedPath.
Context {R : Type} `{MeshTypes} `{!HalfedgeNavigation}.

(** Modelled from the spec: [SignpostIntrinsicTriangulation::traceHalfedge]
    is geometry-central's and is not part of the sources at hand.  "The
    tracer walks across extrinsic triangles from the edge's start vertex to
    its end vertex, emitting one SurfacePoint per crossing plus the two
    endpoint SurfacePoints": a path for the halfedge [he] is the point of
    the vertex [he] starts at, then the crossings, then the point of the
    vertex its twin starts at.  A vertex of the intrinsic mesh is read as
    the vertex of the same index of the mesh the path lies on. *)
Definition emits_both_endpoints (tri : SignpostIntrinsicTriangulation R) (he : Halfedge)
    (points : list (SurfacePoint R)) : Prop :=
  exists crossings : list (SurfacePoint R),
    points = VertexPoint (he_vertex (tri_mesh tri) he)
               :: crossings
               ++ [VertexPoint (he_vertex (tri_mesh tri) (he_twin (tri_mesh tri) he))].

End TracedPath.

(** ** saveMatrix (main.cpp, lines 161-189) *)

(** What the C++ runtime decides: whether a path can be opened for
    writing, and the text [operator<<] produces for a value at a given
    precision. *)
Class IOStreams (T : Type) : Type := {
  opens_for_writing : gmap string string -> string -> bool;
  show_value : nat -> T -> string
}.

(* operator<< on a size_t *)
Definition show_size_t (n : Z) : string :=
  NilZero.string_of_uint (N.to_uint (Z.to_N n)).

(* An output file stream: the path it writes and its precision. *)
Record ofstream : Type := mkOfstream {
  os_path : string;
  os_precision : nat
}.

(* outFile << text: the text is appended to the file. *)
Definition write {R} (outFile : ofstream) (text : string) : Prog (World R) unit := fun w =>
  (Ok tt, mkWorld (w_stdout w) (w_stderr w)
            (<[os_path outFile := default EmptyString (w_files w !! os_path outFile) +:+ text]>
               (w_files w))
            (w_polyscope w)).

Section SaveMatrix.
Context {R T : Type} `{!IOStreams T}.

(* std::ofstream outFile(filename); if (!outFile) throw ...
   Opening creates the file, or empties the one that is there. *)
Definition open (filename : string) : Prog (World R) ofstream := fun w =>
  if opens_for_writing (w_files w) filename
  then (Ok (mkOfstream filename 6),
        mkWorld (w_stdout w) (w_stderr w) (<[filename := EmptyString]> (w_files w))
          (w_polyscope w))
  else (Throw ("failed to open output file " +:+ filename), w).

(* outFile << std::setprecision(n) *)
Definition setprecision (outFile : ofstream) (n : nat) : ofstream :=
  mkOfstream (os_path outFile) n.

(* outFile << (iRow + 1) << " " << (iCol + 1) << " " << val << std::endl; *)
Definition triplet_line (outFile : ofstream) (k : nat) (entry : Z * T) : string :=
  let val := snd entry in
  let iRow := wrap_size_t (fst entry) in
  let iCol := wrap_size_t (Z.of_nat k) in
  show_size_t (size_t_add iRow 1) +:+ " " +:+ show_size_t (size_t_add iCol 1) +:+ " "
    +:+ show_value (os_precision outFile) val +:+ endl.

(* for (typename SparseMatrix<T>::InnerIterator it(matrix, k); it; ++it) *)
Definition write_column (outFile : ofstream) (matrix : SparseMatrix T) (k : nat)
    : Prog (World R) unit :=
  for_each (default [] (outer matrix !! k))
    (fun entry => write outFile (triplet_line outFile k entry)).

Definition saveMatrix (filename : string) (matrix : SparseMatrix T) : Prog (World R) unit :=
  _ ← cout ("Writing sparse matrix to: " +:+ filename +:+ endl);
  outFile ← open filename;
  let outFile := setprecision outFile 16 in
  (* for (int k = 0; k < matrix.outerSize(); ++k) *)
  for_each (seq 0 (length (outer matrix))) (write_column outFile matrix).

(* The stored coefficients as (row, column, value), 0-based, in the order
   the two loops visit them, and the line of text for one of them. *)
Definition stored_entries (matrix : SparseMatrix T) : list (Z * Z * T) :=
  concat (map (fun k : nat =>
                 map (fun entry : Z * T => (fst entry, Z.of_nat k, snd entry))
                   (default [] (outer matrix !! k)))
            (seq 0 (length (outer matrix)))).

Definition triplet_text (entry : Z * Z * T) : string :=
  let '(row, col, val) := entry in
  show_size_t (row + 1) +:+ " " +:+ show_size_t (col + 1) +:+ " "
    +:+ show_value 16 val +:+ endl.

Definition concat_text (texts : list string) : string :=
  foldr String.append EmptyString texts.

(* The world in which the file at a path holds the given text. *)
Definition holding (w : World R) (path text : string) : World R :=
  mkWorld (w_stdout w) (w_stderr w) (<[path := text]> (w_files w)) (w_polyscope w).

Definition saved_world (w : World R) (filename : string) (matrix : SparseMatrix T)
    : World R :=
  mkWorld (w_stdout w +:+ "Writing sparse matrix to: " +:+ filename +:+ endl) (w_stderr w)
    (<[filename := concat_text (map triplet_text (stored_entries matrix))]> (w_files w))
    (w_polyscope w).

End SaveMatrix.

(** ** myCallback (main.cpp, lines 191-212) *)

(* What the user does in one frame of the GUI: the values typed or dragged
   into the three widgets (if any) and whether the button was pressed. *)
Record Frame (R : Type) : Type := mkFrame {
  input_subdivLevel : option Z;
  slider_bubbleScale : option R;
  input_pointsPerTriEdge : option Z;
  button_regenerate : bool
}.
Arguments mkFrame {R} _ _ _ _.
Arguments input_subdivLevel {R} _.
Arguments slider_bubbleScale {R} _.
Arguments input_pointsPerTriEdge {R} _.
Arguments button_regenerate {R} _.

Section Callback.
Context {R : Type} `{Scalar R} `{MeshTypes} `{!GeometryCentral R} `{!BubbleOffsetLib R}.

Definition myCallback (frame : Frame R) : Prog (Session R) unit :=
  s ← get;
  _ ← put (mkSession (cover s)
             (default (bubbleScale s) (slider_bubbleScale frame))
             (default (subdivLevel s) (input_subdivLevel frame))
             (default (pointsPerTriEdge s) (input_pointsPerTriEdge frame))
             (world s));
  if button_regenerate frame then generateVisualization else mret tt.

End Callback.

(** ** main (main.cpp, lines 214-300) *)

(* What the parser matched on the command line. *)
Record ParsedArgs (R : Type) : Type := mkParsedArgs {
  inputFilename : option string;       (* the positional "mesh" *)
  mollifyFactorArg : option R;
  gui : bool;
  outputPrefixArg : option string;
  writeLaplacian : bool;
  writeMass : bool
}.
Arguments mkParsedArgs {R} _ _ _ _ _ _.
Arguments inputFilename {R} _.
Arguments mollifyFactorArg {R} _.
Arguments gui {R} _.
Arguments outputPrefixArg {R} _.
Arguments writeLaplacian {R} _.
Arguments writeMass {R} _.

(* parser.ParseCLI(argc, argv) returns, or throws args::Help or an
   args::ParseError. *)
Inductive ParseOutcome (R : Type) : Type :=
| Parsed (a : ParsedArgs R)
| Help
| ParseError (what : string).
Arguments Parsed {R} _.
Arguments Help {R}.
Arguments ParseError {R} _.

(** The args library: the parse, and the text that printing the parser
    produces (its usage message). *)
Class ArgsLibrary (R : Type) : Type := {
  ParseCLI : list string -> ParseOutcome R;
  usage : list string -> string
}.

Definition EXIT_SUCCESS : Z := 0.
Definition EXIT_FAILURE : Z := 1.

Section Main.
Context {R : Type} `{Scalar R} `{MeshTypes} `{!GeometryCentral R} `{!BubbleOffsetLib R}.
Context `{!IOStreams R} `{!ArgsLibrary R}.

(* mollifyFactor = args::get(mollifyFactorArg): the value given on the
   command line, or the flag's default 1e-6, held in a float. *)
Definition configured_mollifyFactor (a : ParsedArgs R) : R :=
  to_float (default lit_1em6 (mollifyFactorArg a)).

(* The session main starts from: the cover just built and the initial
   values of the "Viz Parameters". *)
Definition initial_session (c : TuftedCover R) (w : World R) : Session R :=
  mkSession c (to_float lit_2) 3 10 w.

Definition in_session (c : TuftedCover R) (body : Prog (Session R) unit)
    : Prog (World R) (Session R) := fun w =>
  let '(r, s) := body (initial_session c w) in
  match r with
  | Ok _ => (Ok s, world s)
  | Throw what => (Throw what, world s)
  | Undefined => (Undefined, world s)
  end.

(* Lines 278-297; polyscope::show() runs the callback once per frame. *)
Definition visualize (mesh : SurfaceMesh) (geometry : VertexPositionGeometry R)
    (mollifyFactor : R) (inputMesh : SimplePolygonMesh R) (frames : list (Frame R))
    : Prog (World R) unit :=
  _ ← cout ("Generating visualization..." +:+ endl);
  _ ← polyscope_call Init;
  c ← generateVertexSeparatedTuftedCover mesh geometry mollifyFactor;
  _ ← in_session c (
    _ ← generateVisualization;
    _ ← in_world (polyscope_call SetUserCallback);
    _ ← in_world (polyscope_call
          (RegisterSurfaceMesh "input mesh" (vertexCoordinates inputMesh) (polygons inputMesh)));
    _ ← in_world (cout ("  ...done!" +:+ endl));
    _ ← in_world (polyscope_call Show);
    for_each frames myCallback);
  mret tt.

Definition main (argv : list string) (frames : list (Frame R)) : Prog (World R) Z :=
  match ParseCLI argv with
  | Help =>
      _ ← cout (usage argv);
      mret 0
  | ParseError what =>
      _ ← cerr (what +:+ endl);
      _ ← cerr (usage argv);
      mret 1
  | Parsed a =>
      match inputFilename a with
      | None =>
          (* Make sure a mesh name was given *)
          _ ← cout (usage argv);
          mret EXIT_FAILURE
      | Some filename =>
          (* Set options *)
          let withGUI := gui a in
          let mollifyFactor := configured_mollifyFactor a in
          let outputPrefix := default "tufted_" (outputPrefixArg a) in
          (* Load mesh *)
          w ← get;
          loaded ← lift (readSimplePolygonMesh (w_files w) filename);
          let inputMesh :=
            triangulate (stripUnusedVertices (stripFacesWithDuplicateVertices loaded)) in
          '(mesh, geometry) ← lift (makeGeneralHalfedgeAndGeometry
                                      (polygons inputMesh) (vertexCoordinates inputMesh));
          _ ← cout ("Building tufted Laplacian..." +:+ endl);
          '(L, M) ← lift (buildTuftedLaplacian mesh geometry mollifyFactor);
          _ ← cout ("  ...done!" +:+ endl);
          (* write output matrices, if requested *)
          _ ← (if writeLaplacian a
               then saveMatrix (outputPrefix +:+ "laplacian.spmat") L else mret tt);
          _ ← (if writeMass a
               then saveMatrix (outputPrefix +:+ "lumped_mass.spmat") M else mret tt);
          _ ← (if withGUI
               then visualize mesh geometry mollifyFactor inputMesh frames else mret tt);
          mret EXIT_SUCCESS
      end
  end.

End Main.

(** ** A small instance of the libraries

    One triangle, face 0 on the vertices 0, 1, 2, with unit sides; edge [e]
    runs from vertex [e] to vertex [e + 1] (mod 3) and its halfedge is
    [2 * e].  The instance is used to run the program on concrete inputs.
    A surface mesh is its number of vertices together with the vertices
    that carry a second fan of faces. *)

Module Triangle.
Section Instance.
Context {R : Type} `{Scalar R}.

#[export] Instance meshTypes : MeshTypes := {
  SurfaceMesh := nat * list Vertex;
  ManifoldSurfaceMesh := nat;
  asSurfaceMesh := fun n => (n, []);
  Signposts := unit
}.

(* The barycentric coordinates, in face 0, of the point at parameter [t]
   on the way from corner [a] to corner [b]. *)
Definition weight (a b : nat) (t : R) (i : nat) : R :=
  if decide (i = a) then rsub lit_1 t
  else if decide (i = b) then t else lit_0.

Definition between (a b : nat) (t : R) : Vector3 R :=
  mkVector3 (weight a b t 0) (weight a b t 1) (weight a b t 2).

Definition corner (v : nat) : Vector3 R :=
  mkVector3 (if decide (v = 0)%nat then lit_1 else lit_0)
            (if decide (v = 1)%nat then lit_1 else lit_0)
            (if decide (v = 2)%nat then lit_1 else lit_0).

(* The tracer walks the stored length of the edge along a side of length
   1: it arrives at the far vertex when the stored length reaches 1 and
   stops inside the side otherwise. *)
Definition trace (tri : SignpostIntrinsicTriangulation R) (he : Halfedge) (trimEnd : bool)
    : Result (list (SurfacePoint R)) :=
  let e := (he / 2)%nat in
  let a := (e mod 3)%nat in
  let b := ((e + 1) mod 3)%nat in
  match intrinsicEdgeLengths tri !! e with
  | None => Throw "traceHalfedge: no such edge"
  | Some len =>
      Ok [VertexPoint a;
          if rgtb lit_1 len then FacePoint 0%nat (between a b len) else VertexPoint b]
  end.

Definition in_face (mesh : nat) (p : SurfacePoint R) (f : Face) : Result (SurfacePoint R) :=
  match p with
  | VertexPoint v => Ok (FacePoint f (corner v))
  | EdgePoint e t => Ok (FacePoint f (between (e mod 3) ((e + 1) mod 3) t))
  | FacePoint f' c =>
      if decide (f' = f) then Ok p else Throw "SurfacePoint::inFace(): no match"
  end.

Definition read_mesh (files : gmap string string) (filename : string)
    : Result (SimplePolygonMesh R) :=
  match files !! filename with
  | Some _ =>
      Ok (mkSimplePolygonMesh [[0; 1; 2]%nat]
            [mkVector3 lit_0 lit_0 lit_0; mkVector3 lit_1 lit_0 lit_0;
             mkVector3 lit_0 lit_1 lit_0])
  | None => Throw ("could not open mesh file " +:+ filename)
  end.

#[export] Instance geometryCentral : GeometryCentral R := {
  copyToSurfaceMesh := fun m => m;
  nVertices := fun m => fst m;
  edgeLengths := fun _ => [lit_1; lit_1; lit_1];
  buildIntrinsicTuftedCover := fun m lengths _ => (m, lengths);
  separateNonmanifoldVertices := fun m =>
    ((fst m + length (snd m), []), seq 0 (fst m) ++ snd m)%nat;
  toManifoldMesh := fun m =>
    match snd m with
    | [] => Ok (fst m)
    | _ => Throw "mesh is not manifold"
    end;
  printStatistics := fun _ => "";
  mollifyIntrinsic := fun _ lengths eps => map (fun len => radd len eps) lengths;
  newSignpostIntrinsicTriangulation := fun m g =>
    mkSignpostIntrinsicTriangulation m m (inputEdgeLengths g) tt;
  flipToDelaunay := fun tri => tri;
  edges := fun _ => [0; 1; 2]%nat;
  halfedge := fun _ e => (2 * e)%nat;
  traceHalfedge := trace;
  sharedFace := fun _ _ _ => 0%nat;
  inFace := in_face;
  readSimplePolygonMesh := read_mesh;
  stripFacesWithDuplicateVertices := fun m => m;
  stripUnusedVertices := fun m => m;
  triangulate := fun m => m;
  makeGeneralHalfedgeAndGeometry := fun polys coords =>
    Ok ((length coords, []), mkVertexPositionGeometry (length coords, []) coords);
  buildTuftedLaplacian := fun _ _ _ =>
    Ok (mkSparseMatrix [[(0, lit_1); (2, lit_1)]; []; [(1, lit_1)]],
        mkSparseMatrix [[(0, lit_1)]; [(1, lit_1)]; [(2, lit_1)]])
}.

(* The rendering surface is the mesh itself; a point is placed at its
   barycentric coordinates, raised by the scale. *)
#[export] Instance bubbleOffsetLib : BubbleOffsetLib R := {
  subdivideRounded := fun _ geom _ _ _ _ =>
    mkSimplePolygonMesh [[0; 1; 2]%nat] (inputVertexPositions geom);
  queryPoint := fun _ s p =>
    match in_face 0%nat p 0%nat with
    | Ok q => mkVector3 (y (faceCoords q)) (z (faceCoords q)) s
    | _ => undefined_vector
    end
}.

(* A path opens for writing unless it lies under /missing/. *)
#[export] Instance ioStreams : IOStreams Z := {
  opens_for_writing := fun _ filename => negb (String.prefix "/missing/" filename);
  show_value := fun _ v =>
    if v <? 0 then "-" +:+ show_size_t (- v) else show_size_t v
}.

#[export] Instance ioStreams_scalar : IOStreams R := {
  opens_for_writing := fun _ filename => negb (String.prefix "/missing/" filename);
  show_value := fun _ _ => "1"
}.

(* A command line parser in the manner of the args library: flags start
   with a dash, anything else is the positional. *)
Fixpoint parse (words : list string) (a : ParsedArgs R) : ParseOutcome R :=
  match words with
  | [] => Parsed a
  | word :: rest =>
      if decide (word = "-h" ∨ word = "--help") then Help
      else if decide (word = "--gui") then
        parse rest (mkParsedArgs (inputFilename a) (mollifyFactorArg a) true
                      (outputPrefixArg a) (writeLaplacian a) (writeMass a))
      else if decide (word = "--writeLaplacian") then
        parse rest (mkParsedArgs (inputFilename a) (mollifyFactorArg a) (gui a)
                      (outputPrefixArg a) true (writeMass a))
      else if decide (word = "--writeMass") then
        parse rest (mkParsedArgs (inputFilename a) (mollifyFactorArg a) (gui a)
                      (outputPrefixArg a) (writeLaplacian a) true)
      else if decide (word = "--outputPrefix") then
        match rest with
        | value :: rest' =>
            parse rest' (mkParsedArgs (inputFilename a) (mollifyFactorArg a) (gui a)
                           (Some value) (writeLaplacian a) (writeMass a))
        | [] => ParseError "Flag 'outputPrefix' requires an argument but received none"
        end
      else if String.prefix "-" word then
        ParseError ("Flag could not be matched: " +:+ word)
      else
        match inputFilename a with
        | None =>
            parse rest (mkParsedArgs (Some word) (mollifyFactorArg a) (gui a)
                          (outputPrefixArg a) (writeLaplacian a) (writeMass a))
        | Some _ => ParseError ("Passed in argument, but no positional arguments were ready to receive it: " +:+ word)
        end
  end.

#[export] Instance argsLibrary : ArgsLibrary R := {
  ParseCLI := fun argv => parse (tail argv) (mkParsedArgs None None false None false false);
  usage := fun argv => "  " +:+ default "" (head argv) +:+ " {OPTIONS} [mesh]" +:+ endl
}.

(* The triangle as a surface mesh. *)
Definition triangle_mesh : SurfaceMesh := (3%nat, []).

(* The triangulation of the triangle with its three unit lengths, the
   flat geometry it sits on, and a world in which nothing has happened. *)
Definition unit_triangulation : SignpostIntrinsicTriangulation R :=
  mkSignpostIntrinsicTriangulation 3%nat 3%nat [lit_1; lit_1; lit_1] tt.

Definition flat_geometry : VertexPositionGeometry R :=
  mkVertexPositionGeometry triangle_mesh
    [mkVector3 lit_0 lit_0 lit_0; mkVector3 lit_1 lit_0 lit_0; mkVector3 lit_0 lit_1 lit_0].

Definition empty_world : World R := mkWorld "" "" ∅ [].

(* The cover of the triangle and a session on it, with one interpolated
   point per pair and no inflation. *)
Definition triangle_cover : TuftedCover R :=
  mkTuftedCover triangle_mesh 3%nat flat_geometry
    (mkEdgeLengthGeometry 3%nat [lit_1; lit_1; lit_1]) unit_triangulation.

Definition triangle_session : Session R :=
  mkSession triangle_cover lit_0 0 1 empty_world.

(* A bowtie: five vertices, the middle one (2) carrying a second fan; and
   the bowtie with that vertex split in two. *)
Definition bowtie : SurfaceMesh := (5%nat, [2%nat]).
Definition split_bowtie : SurfaceMesh := (6%nat, []).

Definition bowtie_geometry : VertexPositionGeometry R :=
  mkVertexPositionGeometry bowtie
    [mkVector3 lit_0 lit_0 lit_0; mkVector3 lit_1 lit_0 lit_0; mkVector3 lit_1 lit_1 lit_0;
     mkVector3 lit_0 lit_1 lit_0; mkVector3 lit_1 lit_1 lit_1].

End Instance.

(* A 3 by 3 integer matrix with three stored entries. *)
Definition small_matrix : SparseMatrix Z :=
  mkSparseMatrix [[(0, 5); (2, -7)]; []; [(1, 3)]].

End Triangle.

(** ** Notions used in the further statements *)

(* A program that leaves an observation of its state as it was, whatever
   its outcome. *)
Definition keeps {S A X} (f : S -> X) (m : Prog S A) : Prop :=
  forall s : S, f (snd (m s)) = f s.

(* A step of the tracing loop that, run while a line is open, may add
   points at the end of that line and touches no other line, whatever its
   outcome. *)
Definition extends_open_line {R} `{MeshTypes} {A} (m : Prog (Tracing R) A) : Prop :=
  forall (tri : SignpostIntrinsicTriangulation R) (ls : list (list (Vector3 R)))
         (b : list (Vector3 R)),
  exists added : list (Vector3 R),
    tr_lines (snd (m (mkTracing tri (ls ++ [b])))) = ls ++ [b ++ added].

(* Two frames seen as one: what the widgets hold after both, and the
   button of the second. *)
Definition merge_frames {R} (first second : Frame R) : Frame R :=
  mkFrame
    (match input_subdivLevel second with
     | Some v => Some v
     | None => input_subdivLevel first
     end)
    (match slider_bubbleScale second with
     | Some v => Some v
     | None => slider_bubbleScale first
     end)
    (match input_pointsPerTriEdge second with
     | Some v => Some v
     | None => input_pointsPerTriEdge first
     end)
    (button_regenerate second).

(** ** Variants of the triangle instance

    The triangle with another tracer in place of its own, and a file
    system that has room for one more file only. *)

Module TriangleVariants.
Section Variants.
Context {R : Type} `{Scalar R}.
#[local] Existing Instance Triangle.meshTypes.

Definition with_tracer
    (tracer : SignpostIntrinsicTriangulation R -> Halfedge -> bool ->
              Result (list (SurfacePoint R)))
    : GeometryCentral R := {|
  copyToSurfaceMesh := fun m => m;
  nVertices := fun m => fst m;
  edgeLengths := fun _ => [lit_1; lit_1; lit_1];
  buildIntrinsicTuftedCover := fun m lengths _ => (m, lengths);
  separateNonmanifoldVertices := fun m =>
    ((fst m + length (snd m), []), seq 0 (fst m) ++ snd m)%nat;
  toManifoldMesh := fun m =>
    match snd m with
    | [] => Ok (fst m)
    | _ => Throw "mesh is not manifold"
    end;
  printStatistics := fun _ => "";
  mollifyIntrinsic := fun _ lengths eps => map (fun len => radd len eps) lengths;
  newSignpostIntrinsicTriangulation := fun m g =>
    mkSignpostIntrinsicTriangulation m m (inputEdgeLengths g) tt;
  flipToDelaunay := fun tri => tri;
  edges := fun _ => [0; 1; 2]%nat;
  halfedge := fun _ e => (2 * e)%nat;
  traceHalfedge := tracer;
  sharedFace := fun _ _ _ => 0%nat;
  inFace := Triangle.in_face;
  readSimplePolygonMesh := Triangle.read_mesh;
  stripFacesWithDuplicateVertices := fun m => m;
  stripUnusedVertices := fun m => m;
  triangulate := fun m => m;
  makeGeneralHalfedgeAndGeometry := fun polys coords =>
    Ok ((length coords, []), mkVertexPositionGeometry (length coords, []) coords);
  buildTuftedLaplacian := fun _ _ _ =>
    Ok (mkSparseMatrix [[(0, lit_1); (2, lit_1)]; []; [(1, lit_1)]],
        mkSparseMatrix [[(0, lit_1)]; [(1, lit_1)]; [(2, lit_1)]])
|}.

(* A tracer that always fails, and one that returns an empty path. *)
Definition failing_tracer : GeometryCentral R :=
  with_tracer (fun _ _ _ => Throw "edgeIsOriginal cache is out of date").

Definition empty_tracer : GeometryCentral R :=
  with_tracer (fun _ _ _ => Ok []).

(* Halfedge 2e runs along edge e, from vertex e to vertex e + 1 (mod 3);
   its twin 2e + 1 runs back. *)
Definition start_of (he : Halfedge) : Vertex :=
  if Nat.even he then ((he / 2) mod 3)%nat else ((he / 2 + 1) mod 3)%nat.

Definition twin_of (he : Halfedge) : Halfedge :=
  if Nat.even he then S he else Nat.pred he.

Definition navigation : HalfedgeNavigation := {|
  he_vertex := fun _ => start_of;
  he_twin := fun _ => twin_of
|}.

(* The tracer of the specification's flat-triangle scenario: each edge is
   traced to its two endpoints, there being nothing to cross. *)
Definition endpoint_tracer : GeometryCentral R :=
  with_tracer (fun _ he _ => Ok [VertexPoint (start_of he); VertexPoint (start_of (twin_of he))]).

(* A path opens for writing if it is there already or if fewer than two
   files are. *)
Definition ioStreams_full : IOStreams R := {|
  opens_for_writing := fun files filename =>
    bool_decide (is_Some (files !! filename)) || bool_decide (size files < 2)%nat;
  show_value := fun _ _ => "1"
|}.

(* A world whose only file is the mesh. *)
Definition mesh_world : World R :=
  mkWorld "" "" {["triangle.obj" := "v 0 0 0"]} [].

End Variants.
End TriangleVariants.

(** * Properties *)

(** ** Machine integers *)

Lemma wrap_int_small (n : Z) : INT_MIN <= n <= INT_MAX -> wrap_int n = n.
Proof.
  unfold INT_MIN, INT_MAX, wrap_int. intros Hn.
  rewrite Z.mod_small by lia. lia.
Qed.

Lemma size_t_succ (n : Z) : 0 <= n < 2 ^ 64 - 1 -> size_t_add (wrap_size_t n) 1 = n + 1.
Proof.
  unfold size_t_add, wrap_size_t. intros Hn.
  rewrite (Z.mod_small n) by lia. apply Z.mod_small. lia.
Qed.

(** ** Interpolation in exact arithmetic *)

Lemma tInterp_exact (N i : Z) :
  0 <= i < N -> N < INT_MAX ->
  (tInterp (R := Q) N i == inject_Z (i + 1) / inject_Z (N + 1))%Q.
Proof.
  intros Hi HN. unfold tInterp, int_add. cbn.
  unfold INT_MAX in HN.
  rewrite !wrap_int_small by (unfold INT_MIN, INT_MAX; lia).
  reflexivity.
Qed.

Lemma tInterp_inside (N i : Z) :
  0 <= i < N -> N < INT_MAX -> (0 < tInterp (R := Q) N i /\ tInterp (R := Q) N i < 1)%Q.
Proof.
  intros Hi HN. rewrite (tInterp_exact N i Hi HN).
  assert (HN0 : (0 < inject_Z (N + 1))%Q) by (rewrite <- (Zlt_Qlt 0); lia).
  split.
  - apply Qlt_shift_div_l; [exact HN0 |].
    rewrite Qmult_0_l. rewrite <- (Zlt_Qlt 0). lia.
  - apply Qlt_shift_div_r; [exact HN0 |].
    rewrite Qmult_1_l. rewrite <- Zlt_Qlt. lia.
Qed.

Lemma tInterp_step (N i : Z) :
  0 <= i -> i + 1 < N -> N < INT_MAX ->
  (tInterp (R := Q) N (i + 1) - tInterp (R := Q) N i == 1 / inject_Z (N + 1))%Q.
Proof.
  intros Hi Hi' HN.
  rewrite (tInterp_exact N (i + 1)) by lia.
  rewrite (tInterp_exact N i) by lia.
  assert (HN0 : ~ (inject_Z (N + 1) == 0)%Q).
  { intros E. assert (Hlt : (0 < inject_Z (N + 1))%Q) by (rewrite <- (Zlt_Qlt 0); lia).
    rewrite E in Hlt. exact (Qlt_irrefl 0 Hlt). }
  replace (i + 1 + 1) with ((i + 1) + 1) by lia.
  rewrite (inject_Z_plus (i + 1) 1). field. exact HN0.
Qed.

Lemma baryInterp_sum (t : Q) (A B : Vector3 Q) :
  (coord_sum A == 1 -> coord_sum B == 1 -> coord_sum (baryInterp t A B) == 1)%Q.
Proof.
  destruct A as [ax ay az], B as [bx by' bz]. unfold coord_sum, baryInterp, vadd, scale. cbn.
  intros HA HB.
  transitivity ((1 - t) * (ax + ay + az) + t * (bx + by' + bz))%Q; [ring |].
  rewrite HA, HB. ring.
Qed.

Lemma interpolated_length {R} `{Scalar R} (N : Z) (f : Face) (pAF pBF : SurfacePoint R) :
  length (interpolated N f pAF pBF) = Z.to_nat N.
Proof. unfold interpolated. rewrite length_map. apply length_seqZ. Qed.

Lemma interpolated_lookup {R} `{Scalar R} (N : Z) (f : Face) (pAF pBF : SurfacePoint R) (i : Z) :
  0 <= i < N ->
  interpolated N f pAF pBF !! Z.to_nat i = Some (pInterp N f pAF pBF i).
Proof.
  intros Hi. unfold interpolated. rewrite list_lookup_fmap.
  rewrite (lookup_seqZ_lt 0 N (Z.to_nat i)) by lia. cbn. f_equal. f_equal. lia.
Qed.

(** C4.  Between two traced points, re-expressed in the shared face with
    barycentric coordinates A and B, the loop produces exactly N points,
    the i-th (i = 0..N-1) being the blend (1-t)*A + t*B at the parameter
    t = (i+1)/(N+1) in the shared face.  The parameters lie strictly
    inside (0,1), consecutive ones are 1/(N+1) apart, and in exact
    arithmetic every blend sums to 1 when A and B do.  N is an int below
    INT_MAX, so that N + 1 does not overflow. *)
Theorem interpolation_evenly_spaced_blend
    (N : Z) (sharedF : Face) (pAF pBF : SurfacePoint Q) :
  N < INT_MAX ->
  length (interpolated N sharedF pAF pBF) = Z.to_nat N /\
  forall i : Z, 0 <= i < N ->
    let t := tInterp (R := Q) N i in
    let A := faceCoords pAF in
    let B := faceCoords pBF in
    interpolated N sharedF pAF pBF !! Z.to_nat i
      = Some (FacePoint sharedF (baryInterp t A B)) /\
    (t == inject_Z (i + 1) / inject_Z (N + 1))%Q /\
    (0 < t)%Q /\ (t < 1)%Q /\
    (i + 1 < N -> (tInterp (R := Q) N (i + 1) - t == 1 / inject_Z (N + 1))%Q) /\
    x (baryInterp t A B) = ((1 - t) * x A + t * x B)%Q /\
    y (baryInterp t A B) = ((1 - t) * y A + t * y B)%Q /\
    z (baryInterp t A B) = ((1 - t) * z A + t * z B)%Q /\
    (coord_sum A == 1 -> coord_sum B == 1 -> coord_sum (baryInterp t A B) == 1)%Q.
Proof.
  intros HN. split; [apply interpolated_length |].
  intros i Hi t A B.
  split; [exact (interpolated_lookup N sharedF pAF pBF i Hi) |].
  split; [exact (tInterp_exact N i Hi HN) |].
  destruct (tInterp_inside N i Hi HN) as [H0 H1].
  split; [exact H0 |]. split; [exact H1 |].
  split; [intros Hi'; apply tInterp_step; lia |].
  repeat (split; [reflexivity |]).
  apply baryInterp_sum.
Qed.

(* N = 3 between corner 0 and corner 1 of face 0: the second point. *)
Lemma interpolation_evenly_spaced_blend_witness :
  3 < INT_MAX /\
  interpolated 3 0%nat (FacePoint 0%nat (mkVector3 1%Q 0%Q 0%Q))
      (FacePoint 0%nat (mkVector3 0%Q 1%Q 0%Q)) !! 1%nat
  = Some (FacePoint 0%nat
            (baryInterp (tInterp (R := Q) 3 1) (mkVector3 1%Q 0%Q 0%Q) (mkVector3 0%Q 1%Q 0%Q))).
Proof.
  split; [reflexivity |].
  exact (proj1 (proj2 (interpolation_evenly_spaced_blend 3 0%nat
                         (FacePoint 0%nat (mkVector3 1%Q 0%Q 0%Q))
                         (FacePoint 0%nat (mkVector3 0%Q 1%Q 0%Q))
                         ltac:(reflexivity)) 1 ltac:(lia))).
Defined.

(** ** Running programs *)

Lemma run_bind {S A B} (m : Prog S A) (k : A -> Prog S B) (s : S) :
  (m ≫= k) s =
  match m s with
  | (Ok a, s') => k a s'
  | (Throw what, s') => (Throw what, s')
  | (Undefined, s') => (Undefined, s')
  end.
Proof. reflexivity. Qed.

Lemma for_each_cons {S X} (i : X) (rest : list X) (body : X -> Prog S unit) (s : S) :
  for_each (i :: rest) body s =
  match body i s with
  | (Ok _, s') => for_each rest body s'
  | (Throw what, s') => (Throw what, s')
  | (Undefined, s') => (Undefined, s')
  end.
Proof. reflexivity. Qed.

Lemma for_each_app {S X} (l1 l2 : list X) (body : X -> Prog S unit) (s s1 : S) :
  for_each l1 body s = (Ok tt, s1) ->
  for_each (l1 ++ l2) body s = for_each l2 body s1.
Proof.
  revert s. induction l1 as [| i l1 IH]; intros s Hs.
  - cbn in Hs. injection Hs as <-. reflexivity.
  - cbn [app]. rewrite for_each_cons in *.
    destruct (body i s) as [[[] | what |] s']; try discriminate.
    apply IH, Hs.
Qed.

Lemma at_index_Ok {A} (l : list A) (i : nat) (a : A) : l !! i = Some a -> at_index l i = Ok a.
Proof. unfold at_index. intros ->. reflexivity. Qed.

Lemma set_index_Ok {A} (l : list A) (i : nat) (a : A) :
  (i < length l)%nat -> set_index l i a = Ok (<[i := a]> l).
Proof. unfold set_index. intros Hi. destruct (decide (i < length l)%nat); [reflexivity | lia]. Qed.

Lemma back_push_back_snoc {A} (ls : list (list A)) (b : list A) (a : A) :
  back_push_back (ls ++ [b]) a = Ok (ls ++ [b ++ [a]]).
Proof.
  unfold back_push_back. rewrite reverse_snoc. rewrite reverse_involutive. reflexivity.
Qed.

(** ** Tracing one edge *)

Section TracingProperties.
Context {R : Type} `{Scalar R} `{MeshTypes} `{!GeometryCentral R} `{!BubbleOffsetLib R}.
Variable bubbleGeom : VertexPositionGeometry R.
Variable relativeScale : R.
Variable nPoints : Z.

Local Abbreviation query := (queryPoint bubbleGeom relativeScale).
Local Abbreviation push := (pushLinePoint bubbleGeom relativeScale).

Lemma pushLinePoint_snoc tri (ls : list (list (Vector3 R))) (b : list (Vector3 R)) p :
  push p (mkTracing tri (ls ++ [b])) = (Ok tt, mkTracing tri (ls ++ [b ++ [query p]])).
Proof.
  unfold pushLinePoint. rewrite run_bind. cbn [get tr_lines tr_signpostTri].
  rewrite run_bind. unfold lift at 1. rewrite back_push_back_snoc. reflexivity.
Qed.

Lemma push_all tri (ls : list (list (Vector3 R))) (b : list (Vector3 R)) ps :
  for_each ps push (mkTracing tri (ls ++ [b]))
  = (Ok tt, mkTracing tri (ls ++ [b ++ map query ps])).
Proof.
  revert b. induction ps as [| p ps IH]; intros b.
  - cbn. rewrite app_nil_r. reflexivity.
  - rewrite for_each_cons, pushLinePoint_snoc, IH. cbn [map].
    rewrite <- app_assoc. reflexivity.
Qed.

Lemma pushSegment_snoc mesh points tri ls (b : list (Vector3 R)) (i : nat) :
  (i + 1 < length points)%nat ->
  consecutive_in_shared_face mesh points ->
  pushSegment bubbleGeom relativeScale nPoints mesh points i (mkTracing tri (ls ++ [b]))
  = (Ok tt, mkTracing tri (ls ++ [b ++ map query (segment_points nPoints mesh points i)])).
Proof.
  intros Hi Hin.
  destruct (lookup_lt_is_Some_2 points i ltac:(lia)) as [pA HA].
  destruct (lookup_lt_is_Some_2 points (i + 1) Hi) as [pB HB].
  destruct (Hin i pA pB HA HB) as (pAF & pBF & HAF & HBF).
  unfold pushSegment, segment_points. rewrite HA, HB, HAF, HBF.
  rewrite run_bind. unfold lift at 1. rewrite (at_index_Ok _ _ _ HA).
  rewrite run_bind. unfold lift at 1. rewrite (at_index_Ok _ _ _ HB).
  rewrite run_bind. unfold lift at 1. rewrite HAF.
  rewrite run_bind. unfold lift at 1. rewrite HBF.
  rewrite run_bind, push_all, pushLinePoint_snoc.
  rewrite map_app, app_assoc. reflexivity.
Qed.

Lemma pushSegments_snoc mesh points tri ls :
  consecutive_in_shared_face mesh points ->
  forall (n k : nat) (b : list (Vector3 R)),
  (k + n + 1 <= length points)%nat ->
  for_each (seq k n) (pushSegment bubbleGeom relativeScale nPoints mesh points)
    (mkTracing tri (ls ++ [b]))
  = (Ok tt, mkTracing tri
              (ls ++ [b ++ map query
                         (concat (map (segment_points nPoints mesh points) (seq k n)))])).
Proof.
  intros Hin. induction n as [| n IH]; intros k b Hk.
  - cbn. rewrite app_nil_r. reflexivity.
  - cbn [seq]. rewrite for_each_cons, pushSegment_snoc by (lia || assumption).
    rewrite IH by lia. cbn [map concat]. rewrite map_app, app_assoc. reflexivity.
Qed.

(* A traced path that is not empty becomes one new line, made of the
   images of its line points. *)
Lemma pushLine_spec mesh points tri (ls : list (list (Vector3 R))) :
  points <> [] ->
  consecutive_in_shared_face mesh points ->
  pushLine bubbleGeom relativeScale nPoints mesh points (mkTracing tri ls)
  = (Ok tt, mkTracing tri (ls ++ [map query (line_points nPoints mesh points)])).
Proof.
  intros Hne Hin. destruct points as [| first rest]; [congruence |].
  unfold pushLine, line_points.
  rewrite run_bind. cbn [get tr_lines tr_signpostTri].
  rewrite run_bind. cbn [put].
  rewrite run_bind. unfold lift at 1. cbn [front].
  rewrite run_bind, pushLinePoint_snoc.
  rewrite pushSegments_snoc by (assumption || cbn [length]; lia).
  reflexivity.
Qed.

End TracingProperties.

Lemma lookup_cons_S {A} (a : A) (l : list A) (i : nat) : (a :: l) !! S i = l !! i.
Proof. reflexivity. Qed.

(* Chunks of one length, laid end to end. *)
Lemma concat_uniform_length {A} (f : nat -> list A) (m : nat) :
  forall c : nat, (forall k, (k < c)%nat -> length (f k) = m) ->
  length (concat (map f (seq 0 c))) = (c * m)%nat.
Proof.
  induction c as [| c IH]; intros Hlen; [reflexivity |].
  rewrite seq_S, map_app, concat_app, length_app. cbn [map concat Nat.add].
  rewrite app_nil_r, IH by (intros k Hk; apply Hlen; lia).
  rewrite (Hlen c) by lia. lia.
Qed.

Lemma concat_uniform_lookup {A} (f : nat -> list A) (m : nat) :
  forall c : nat, (forall k, (k < c)%nat -> length (f k) = m) ->
  forall k j : nat, (k < c)%nat -> (j < m)%nat ->
  concat (map f (seq 0 c)) !! (k * m + j)%nat = f k !! j.
Proof.
  induction c as [| c IH]; intros Hlen k j Hk Hj; [lia |].
  assert (Hpre : length (concat (map f (seq 0 c))) = (c * m)%nat)
    by (apply concat_uniform_length; intros k' Hk'; apply Hlen; lia).
  rewrite seq_S, map_app, concat_app. cbn [map concat Nat.add]. rewrite app_nil_r.
  destruct (decide (k < c)%nat) as [Hlt | Hge].
  - rewrite lookup_app_l by (rewrite Hpre; nia).
    apply IH; [intros k' Hk'; apply Hlen; lia | exact Hlt | exact Hj].
  - assert (k = c) as -> by lia.
    rewrite lookup_app_r by (rewrite Hpre; lia).
    rewrite Hpre. f_equal. lia.
Qed.

Lemma line_points_cons {R} `{Scalar R} `{MeshTypes} `{!GeometryCentral R}
    (nPoints : Z) (mesh : ManifoldSurfaceMesh) (points : list (SurfacePoint R)) :
  points <> [] ->
  exists first : SurfacePoint R,
    points !! 0%nat = Some first /\
    line_points nPoints mesh points
    = first :: concat (map (segment_points nPoints mesh points) (seq 0 (length points - 1))).
Proof.
  intros Hne. destruct points as [| first rest] eqn:E; [congruence |].
  exists first. split; reflexivity.
Qed.

Section LineLayout.
Context {R : Type} `{Scalar R} `{MeshTypes} `{!GeometryCentral R}.
Variable nPoints : Z.
Variable mesh : ManifoldSurfaceMesh.
Variable points : list (SurfacePoint R).
Hypothesis in_face : consecutive_in_shared_face mesh points.

Lemma segment_points_eq (i : nat) (pA pB pAF pBF : SurfacePoint R) :
  points !! i = Some pA -> points !! (i + 1)%nat = Some pB ->
  inFace mesh pA (sharedFace mesh pA pB) = Ok pAF ->
  inFace mesh pB (sharedFace mesh pA pB) = Ok pBF ->
  segment_points nPoints mesh points i
  = interpolated nPoints (sharedFace mesh pA pB) pAF pBF ++ [pB].
Proof. intros HA HB HAF HBF. unfold segment_points. rewrite HA, HB, HAF, HBF. reflexivity. Qed.

Lemma segment_points_length (i : nat) :
  (i < length points - 1)%nat ->
  length (segment_points nPoints mesh points i) = (Z.to_nat nPoints + 1)%nat.
Proof using in_face.
  intros Hi.
  destruct (lookup_lt_is_Some_2 points i ltac:(lia)) as [pA HA].
  destruct (lookup_lt_is_Some_2 points (i + 1) ltac:(lia)) as [pB HB].
  destruct (in_face i pA pB HA HB) as (pAF & pBF & HAF & HBF).
  rewrite (segment_points_eq i pA pB pAF pBF HA HB HAF HBF).
  rewrite length_app, interpolated_length. reflexivity.
Qed.

Lemma line_points_length :
  points <> [] ->
  length (line_points nPoints mesh points)
  = (1 + (length points - 1) * (Z.to_nat nPoints + 1))%nat.
Proof using in_face.
  intros Hne. destruct (line_points_cons nPoints mesh points Hne) as (first & _ & ->).
  cbn [length]. f_equal.
  apply concat_uniform_length. intros k Hk. apply segment_points_length. exact Hk.
Qed.

(* The traced points sit at the multiples of nPoints + 1. *)
Lemma line_points_traced (k : nat) (p : SurfacePoint R) :
  points !! k = Some p ->
  line_points nPoints mesh points !! (k * (Z.to_nat nPoints + 1))%nat = Some p.
Proof using in_face.
  intros Hp.
  assert (Hne : points <> []) by (intros E; rewrite E in Hp; discriminate).
  destruct (line_points_cons nPoints mesh points Hne) as (first & Hfirst & ->).
  destruct k as [| k].
  - cbn. congruence.
  - assert (Hk : (k < length points - 1)%nat).
    { apply lookup_lt_Some in Hp. lia. }
    replace (S k * (Z.to_nat nPoints + 1))%nat
      with (S (k * (Z.to_nat nPoints + 1) + Z.to_nat nPoints))%nat by lia.
    rewrite lookup_cons_S.
    rewrite (concat_uniform_lookup _ (Z.to_nat nPoints + 1))
      by (try (intros k' Hk'; apply segment_points_length; exact Hk'); lia).
    destruct (lookup_lt_is_Some_2 points k ltac:(lia)) as [pA HA].
    replace (S k) with (k + 1)%nat in Hp by lia.
    destruct (in_face k pA p HA Hp) as (pAF & pBF & HAF & HBF).
    rewrite (segment_points_eq k pA p pAF pBF HA Hp HAF HBF).
    rewrite lookup_app_r by (rewrite interpolated_length; lia).
    rewrite interpolated_length, Nat.sub_diag. reflexivity.
Qed.

(* The interpolated points of a pair sit between its two traced points. *)
Lemma line_points_interpolated (k : nat) (pA pB pAF pBF : SurfacePoint R) (j : Z) :
  points !! k = Some pA -> points !! (k + 1)%nat = Some pB ->
  inFace mesh pA (sharedFace mesh pA pB) = Ok pAF ->
  inFace mesh pB (sharedFace mesh pA pB) = Ok pBF ->
  0 <= j < nPoints ->
  line_points nPoints mesh points !! (k * (Z.to_nat nPoints + 1) + 1 + Z.to_nat j)%nat
  = Some (pInterp nPoints (sharedFace mesh pA pB) pAF pBF j).
Proof using in_face.
  intros HA HB HAF HBF Hj.
  assert (Hne : points <> []) by (intros E; rewrite E in HA; discriminate).
  destruct (line_points_cons nPoints mesh points Hne) as (first & _ & ->).
  assert (Hk : (k < length points - 1)%nat).
  { apply lookup_lt_Some in HB. lia. }
  replace (k * (Z.to_nat nPoints + 1) + 1 + Z.to_nat j)%nat
    with (S (k * (Z.to_nat nPoints + 1) + Z.to_nat j))%nat by lia.
  rewrite lookup_cons_S.
  rewrite (concat_uniform_lookup _ (Z.to_nat nPoints + 1))
    by (try (intros k' Hk'; apply segment_points_length; exact Hk'); lia).
  rewrite (segment_points_eq k pA pB pAF pBF HA HB HAF HBF).
  rewrite lookup_app_l by (rewrite interpolated_length; lia).
  apply interpolated_lookup. exact Hj.
Qed.

Lemma line_points_head (first : SurfacePoint R) :
  head points = Some first -> head (line_points nPoints mesh points) = Some first.
Proof.
  intros Hhead.
  assert (Hne : points <> []) by (intros E; rewrite E in Hhead; discriminate).
  destruct (line_points_cons nPoints mesh points Hne) as (first' & Hfirst & ->).
  rewrite head_lookup in Hhead. cbn. congruence.
Qed.

Lemma line_points_last (final : SurfacePoint R) :
  last points = Some final -> last (line_points nPoints mesh points) = Some final.
Proof using in_face.
  intros Hlast.
  assert (Hne : points <> []) by (intros E; rewrite E in Hlast; discriminate).
  rewrite last_lookup in *. rewrite line_points_length by exact Hne.
  change (Init.Nat.pred (1 + ?n)%nat) with n.
  apply line_points_traced.
  rewrite <- Hlast. f_equal. lia.
Qed.

End LineLayout.

(** ** The length nudge and the line of one edge *)

Section EdgeTracing.
Context {R : Type} `{Scalar R} `{MeshTypes} `{!GeometryCentral R} `{!BubbleOffsetLib R}.

Lemma set_intrinsicEdgeLength_Ok (tri : SignpostIntrinsicTriangulation R) (e : Edge) (len : R) :
  (e < length (intrinsicEdgeLengths tri))%nat ->
  set_intrinsicEdgeLength tri e len = Ok (with_length tri e len).
Proof.
  intros He. unfold set_intrinsicEdgeLength. rewrite set_index_Ok by exact He. reflexivity.
Qed.

Lemma with_length_restore (tri : SignpostIntrinsicTriangulation R) (e : Edge) (oldLen len : R) :
  intrinsicEdgeLengths tri !! e = Some oldLen ->
  with_length (with_length tri e len) e oldLen = tri.
Proof.
  intros Hold. destruct tri as [im m lengths sp]. unfold with_length. cbn in *.
  f_equal. rewrite list_insert_insert_eq. apply list_insert_id. exact Hold.
Qed.

Lemma traceShortened_returns
    (tri : SignpostIntrinsicTriangulation R) (lines : list (list (Vector3 R)))
    (e : Edge) (oldLen : R) (points : list (SurfacePoint R)) :
  intrinsicEdgeLengths tri !! e = Some oldLen ->
  traceHalfedge (with_length tri e (rmul oldLen lit_999)) (halfedge (tri_mesh tri) e) false
    = Ok points ->
  traceShortened e (mkTracing tri lines) = (Ok points, mkTracing tri lines).
Proof.
  intros Hold Htrace.
  assert (He : (e < length (intrinsicEdgeLengths tri))%nat)
    by (eapply lookup_lt_Some; exact Hold).
  unfold traceShortened. rewrite run_bind. cbn [get tr_signpostTri tr_lines].
  rewrite run_bind. unfold lift at 1. rewrite (at_index_Ok _ _ _ Hold).
  rewrite run_bind. unfold lift at 1. rewrite set_intrinsicEdgeLength_Ok by exact He.
  rewrite run_bind. cbn [put].
  rewrite run_bind. unfold lift at 1. rewrite Htrace.
  rewrite run_bind. unfold lift at 1.
  rewrite set_intrinsicEdgeLength_Ok
    by (unfold with_length; cbn; rewrite length_insert; exact He).
  rewrite (with_length_restore tri e oldLen _ Hold).
  reflexivity.
Qed.

(** C2.  Tracing an edge that has a stored length first replaces that
    length by its product with 0.999, performs the trace on the
    triangulation so changed, and, when the trace has returned, writes the
    saved length back: the triangulation, and with it the whole array of
    edge lengths, is then equal to what it was before, whatever the edge
    and the triangulation. *)
Theorem trace_nudges_and_restores_length
    (tri : SignpostIntrinsicTriangulation R) (lines : list (list (Vector3 R)))
    (e : Edge) (oldLen : R) :
  intrinsicEdgeLengths tri !! e = Some oldLen ->
  intrinsicEdgeLengths (with_length tri e (rmul oldLen lit_999)) !! e
    = Some (rmul oldLen lit_999) /\
  forall points : list (SurfacePoint R),
    traceHalfedge (with_length tri e (rmul oldLen lit_999)) (halfedge (tri_mesh tri) e) false
      = Ok points ->
    traceShortened e (mkTracing tri lines) = (Ok points, mkTracing tri lines) /\
    intrinsicEdgeLengths (tr_signpostTri (snd (traceShortened e (mkTracing tri lines))))
      = intrinsicEdgeLengths tri.
Proof.
  intros Hold. split.
  { unfold with_length. cbn. apply list_lookup_insert_eq.
    eapply lookup_lt_Some. exact Hold. }
  intros points Htrace.
  rewrite (traceShortened_returns tri lines e oldLen points Hold Htrace).
  split; reflexivity.
Qed.

Variable bubbleGeom : VertexPositionGeometry R.
Variable relativeScale : R.
Variable nPoints : Z.

Local Abbreviation query := (queryPoint bubbleGeom relativeScale).

(* One round of the loop: the triangulation is as before and one line, the
   images of the line points of the shortened trace, has been added. *)
Lemma traceEdge_spec (tri : SignpostIntrinsicTriangulation R) (ls : list (list (Vector3 R)))
    (e : Edge) (oldLen : R) (points : list (SurfacePoint R)) :
  intrinsicEdgeLengths tri !! e = Some oldLen ->
  traceHalfedge (with_length tri e (rmul oldLen lit_999)) (halfedge (tri_mesh tri) e) false
    = Ok points ->
  points <> [] ->
  consecutive_in_shared_face (inputMesh tri) points ->
  traceEdge bubbleGeom relativeScale nPoints e (mkTracing tri ls)
  = (Ok tt, mkTracing tri (ls ++ [map query (line_points nPoints (inputMesh tri) points)])).
Proof.
  intros Hold Htrace Hne Hin. unfold traceEdge.
  rewrite run_bind.
  rewrite (traceShortened_returns tri ls e oldLen points Hold Htrace).
  rewrite run_bind. cbn [get tr_signpostTri].
  apply pushLine_spec; assumption.
Qed.

(** C10.  When the shortened trace of an edge returns n >= 2 points (each
    consecutive pair of which can be brought into its shared face) and
    pointsPerTriEdge is not negative, the line added for the edge holds
    the images of the traced points, in order, at the positions
    k * (pointsPerTriEdge + 1), and between the k-th and the next the
    images of the pointsPerTriEdge interpolated points of that pair, in
    order; it has 1 + (n - 1) * (pointsPerTriEdge + 1) points, so every
    position is one or the other. *)
Theorem traced_line_layout (tri : SignpostIntrinsicTriangulation R)
    (ls : list (list (Vector3 R))) (e : Edge) (oldLen : R) (points : list (SurfacePoint R)) :
  0 <= nPoints ->
  intrinsicEdgeLengths tri !! e = Some oldLen ->
  traceHalfedge (with_length tri e (rmul oldLen lit_999)) (halfedge (tri_mesh tri) e) false
    = Ok points ->
  (2 <= length points)%nat ->
  consecutive_in_shared_face (inputMesh tri) points ->
  exists line : list (Vector3 R),
    traceEdge bubbleGeom relativeScale nPoints e (mkTracing tri ls)
      = (Ok tt, mkTracing tri (ls ++ [line])) /\
    Z.of_nat (length line) = 1 + (Z.of_nat (length points) - 1) * (nPoints + 1) /\
    (forall (k : nat) (p : SurfacePoint R),
        points !! k = Some p ->
        line !! (k * (Z.to_nat nPoints + 1))%nat = Some (query p)) /\
    (forall (k : nat) (pA pB pAF pBF : SurfacePoint R) (j : Z),
        points !! k = Some pA -> points !! (k + 1)%nat = Some pB ->
        inFace (inputMesh tri) pA (sharedFace (inputMesh tri) pA pB) = Ok pAF ->
        inFace (inputMesh tri) pB (sharedFace (inputMesh tri) pA pB) = Ok pBF ->
        0 <= j < nPoints ->
        line !! (k * (Z.to_nat nPoints + 1) + 1 + Z.to_nat j)%nat
        = Some (query (pInterp nPoints (sharedFace (inputMesh tri) pA pB) pAF pBF j))).
Proof.
  intros HN Hold Htrace Hlen Hin.
  assert (Hne : points <> []) by (intros E; rewrite E in Hlen; cbn in Hlen; lia).
  exists (map query (line_points nPoints (inputMesh tri) points)).
  split; [apply (traceEdge_spec tri ls e oldLen points); assumption |].
  split.
  { rewrite length_map, (line_points_length nPoints _ points Hin Hne). nia. }
  split.
  - intros k p Hp. rewrite list_lookup_fmap.
    rewrite (line_points_traced nPoints _ points Hin k p Hp). reflexivity.
  - intros k pA pB pAF pBF j HA HB HAF HBF Hj. rewrite list_lookup_fmap.
    rewrite (line_points_interpolated nPoints _ points Hin k pA pB pAF pBF j HA HB HAF HBF Hj).
    reflexivity.
Qed.

End EdgeTracing.

Section EndsOfALine.
Context {R : Type} `{Scalar R} `{MeshTypes} `{!GeometryCentral R} `{!BubbleOffsetLib R}.
Context {navigation : HalfedgeNavigation}.


End EndsOfALine.

(** ** Regenerating the visualization *)

Section Regeneration.
Context {R : Type} `{Scalar R} `{MeshTypes} `{!GeometryCentral R} `{!BubbleOffsetLib R}.

Lemma restores_bind {A B} (m : Prog (Tracing R) A) (k : A -> Prog (Tracing R) B) :
  restores_triangulation m -> (forall a, restores_triangulation (k a)) ->
  restores_triangulation (m ≫= k).
Proof.
  intros Hm Hk st st' b. rewrite run_bind.
  destruct (m st) as [[a | what |] st1] eqn:E; try discriminate.
  intros Hrun. rewrite (Hk a st1 st' b Hrun). exact (Hm st st1 a E).
Qed.

Lemma restores_lift {A} (r : Result A) :
  restores_triangulation (lift (S := Tracing R) r).
Proof. intros st st' a Heq. unfold lift in Heq. inversion Heq. reflexivity. Qed.

Lemma restores_get : restores_triangulation (get (S := Tracing R)).
Proof. intros st st' a Heq. unfold get in Heq. inversion Heq. reflexivity. Qed.

Lemma restores_for_each {X} (items : list X) (body : X -> Prog (Tracing R) unit) :
  (forall i, restores_triangulation (body i)) -> restores_triangulation (for_each items body).
Proof.
  intros Hbody. induction items as [| i items IH].
  - intros st st' a Heq. cbn in Heq. inversion Heq. reflexivity.
  - cbn [for_each]. apply restores_bind; [apply Hbody | intros _; exact IH].
Qed.

Lemma restores_pushLinePoint geom s (p : SurfacePoint R) :
  restores_triangulation (pushLinePoint geom s p).
Proof.
  intros st st' a. unfold pushLinePoint. rewrite run_bind. cbn [get].
  rewrite run_bind. unfold lift at 1.
  destruct (back_push_back (tr_lines st) (queryPoint geom s p)); try discriminate.
  cbn [put]. intros Heq. inversion Heq. reflexivity.
Qed.

Lemma restores_pushSegment geom s n mesh points (i : nat) :
  restores_triangulation (pushSegment geom s n mesh points i).
Proof.
  unfold pushSegment.
  apply restores_bind; [apply restores_lift | intros pA].
  apply restores_bind; [apply restores_lift | intros pB].
  apply restores_bind; [apply restores_lift | intros pAF].
  apply restores_bind; [apply restores_lift | intros pBF].
  apply restores_bind; [| intros _; apply restores_pushLinePoint].
  apply restores_for_each. intros p. apply restores_pushLinePoint.
Qed.

Lemma restores_pushLine geom s n mesh points :
  restores_triangulation (pushLine geom s n mesh points).
Proof.
  intros st st' a. unfold pushLine. rewrite run_bind. cbn [get].
  rewrite run_bind. cbn [put].
  intros Hrun.
  change (tr_signpostTri st)
    with (tr_signpostTri (mkTracing (tr_signpostTri st) (tr_lines st ++ [[]]))).
  revert Hrun. generalize (mkTracing (tr_signpostTri st) (tr_lines st ++ [[]])).
  intros st1 Hrun.
  refine (restores_bind (lift (front points)) _ (restores_lift _) _ st1 st' a Hrun).
  intros first. apply restores_bind; [apply restores_pushLinePoint | intros _].
  apply restores_for_each. intros i. apply restores_pushSegment.
Qed.

Lemma with_length_twice (tri : SignpostIntrinsicTriangulation R) (e : Edge) (len len' : R) :
  with_length (with_length tri e len) e len' = with_length tri e len'.
Proof. unfold with_length. cbn. rewrite list_insert_insert_eq. reflexivity. Qed.

Lemma restores_traceShortened (e : Edge) : restores_triangulation (traceShortened e).
Proof.
  intros st st' points. unfold traceShortened. rewrite run_bind. cbn [get].
  rewrite run_bind. unfold lift at 1.
  destruct (at_index _ e) as [oldLen | what |] eqn:Hat; try (intros Heq; discriminate Heq).
  assert (Hold : intrinsicEdgeLengths (tr_signpostTri st) !! e = Some oldLen).
  { unfold at_index in Hat.
    destruct (_ !! _); [injection Hat as ->; reflexivity | discriminate]. }
  assert (He : (e < length (intrinsicEdgeLengths (tr_signpostTri st)))%nat)
    by (eapply lookup_lt_Some; exact Hold).
  rewrite run_bind. unfold lift at 1. rewrite set_intrinsicEdgeLength_Ok by exact He.
  rewrite run_bind. cbn [put].
  rewrite run_bind. unfold lift at 1.
  destruct (traceHalfedge _ _ false) as [pts | what' |];
    try (intros Heq; discriminate Heq).
  rewrite run_bind. unfold lift at 1.
  rewrite set_intrinsicEdgeLength_Ok
    by (unfold with_length; cbn; rewrite length_insert; exact He).
  rewrite (with_length_restore _ e oldLen _ Hold).
  rewrite run_bind. cbn [put]. intros Heq. inversion Heq. reflexivity.
Qed.

Lemma restores_traceEdge geom s n (e : Edge) : restores_triangulation (traceEdge geom s n e).
Proof.
  unfold traceEdge. apply restores_bind; [apply restores_traceShortened | intros points].
  apply restores_bind; [apply restores_get | intros st]. apply restores_pushLine.
Qed.

Lemma set_signpostTri_same (c : TuftedCover R) : set_signpostTri c (signpostTri c) = c.
Proof. destruct c. reflexivity. Qed.

(* When the tracing loop returns, the session is what it was. *)
Lemma traceAllEdges_returns (s s' : Session R) (lines : list (list (Vector3 R))) :
  traceAllEdges s = (Ok lines, s') -> s' = s.
Proof.
  unfold traceAllEdges.
  destruct (for_each _ _ _) as [[[] | what |] st] eqn:Hloop; try discriminate.
  intros [= _ <-].
  apply (restores_for_each _ _ (restores_traceEdge _ _ _)) in Hloop. cbn in Hloop.
  rewrite Hloop, set_signpostTri_same. destruct s. reflexivity.
Qed.

Lemma traceAllEdges_world (s : Session R) (calls : list (PolyscopeCall R)) :
  traceAllEdges (add_polyscope_calls s calls)
  = (fst (traceAllEdges s), add_polyscope_calls (snd (traceAllEdges s)) calls).
Proof.
  unfold traceAllEdges, add_polyscope_calls. cbn.
  destruct (for_each _ _ _) as [[[] | what |] st]; reflexivity.
Qed.

Lemma add_polyscope_calls_app (s : Session R) (l1 l2 : list (PolyscopeCall R)) :
  add_polyscope_calls (add_polyscope_calls s l1) l2 = add_polyscope_calls s (l1 ++ l2).
Proof. unfold add_polyscope_calls. cbn. rewrite app_assoc. reflexivity. Qed.

Lemma in_world_polyscope_call (s : Session R) (c : PolyscopeCall R) :
  in_world (polyscope_call c) s = (Ok tt, add_polyscope_calls s [c]).
Proof. reflexivity. Qed.

(* One run, told by what the tracing loop does. *)
Lemma generateVisualization_run (s : Session R) :
  generateVisualization s =
  let subSoup := subdivideRounded (manifoldTuftedMesh (cover s)) (tuftedGeom (cover s))
                   (subdivLevel s) (bubbleScale s) 0 0 in
  let register :=
    RegisterSurfaceMesh "bubble tufted cover" (vertexCoordinates subSoup) (polygons subSoup) in
  match traceAllEdges s with
  | (Ok lines, s') =>
      (Ok tt, add_polyscope_calls s'
                [register;
                 AddSurfaceGraphQuantity "bubble tufted cover" "intrinsic edges" lines true])
  | (Throw what, s') => (Throw what, add_polyscope_calls s' [register])
  | (Undefined, s') => (Undefined, add_polyscope_calls s' [register])
  end.
Proof.
  unfold generateVisualization. rewrite run_bind. cbn [get].
  rewrite run_bind, in_world_polyscope_call.
  rewrite run_bind, traceAllEdges_world.
  destruct (traceAllEdges s) as [[lines | what |] s']; cbn [fst snd]; try reflexivity.
  rewrite in_world_polyscope_call, add_polyscope_calls_app. reflexivity.
Qed.

(** C9.  A run of the regeneration that returns leaves the triangulation,
    the cover and the parameters as they were, and hands polyscope a
    freshly built surface and freshly built lines; run again from the
    state it left, it returns again and hands polyscope the same surface
    and the same lines: two runs on the same state and parameters agree. *)
Theorem regeneration_is_repeatable (s s1 : Session R) :
  generateVisualization s = (Ok tt, s1) ->
  exists (subSoup : SimplePolygonMesh R) (lines : list (list (Vector3 R))),
    subSoup = subdivideRounded (manifoldTuftedMesh (cover s)) (tuftedGeom (cover s))
                (subdivLevel s) (bubbleScale s) 0 0 /\
    s1 = add_polyscope_calls s
           [RegisterSurfaceMesh "bubble tufted cover"
              (vertexCoordinates subSoup) (polygons subSoup);
            AddSurfaceGraphQuantity "bubble tufted cover" "intrinsic edges" lines true] /\
    generateVisualization s1
    = (Ok tt, add_polyscope_calls s1
                [RegisterSurfaceMesh "bubble tufted cover"
                   (vertexCoordinates subSoup) (polygons subSoup);
                 AddSurfaceGraphQuantity "bubble tufted cover" "intrinsic edges" lines true]).
Proof.
  intros Hrun. rewrite generateVisualization_run in Hrun. cbv zeta in Hrun.
  destruct (traceAllEdges s) as [[lines | what |] s'] eqn:Htrace; try discriminate.
  pose proof (traceAllEdges_returns s s' lines Htrace) as ->.
  injection Hrun as <-.
  eexists _, lines. split; [reflexivity |]. split; [reflexivity |].
  rewrite generateVisualization_run. cbv zeta.
  rewrite traceAllEdges_world, Htrace. cbn [fst snd]. reflexivity.
Qed.

End Regeneration.

(** ** The vertex-separated tufted cover *)

Section VertexSeparation.
Context {R : Type} `{Scalar R} `{MeshTypes} `{!GeometryCentral R}.
Variable origVert : list Vertex.
Variable original : list (Vector3 R).
Variable grown : list (Vector3 R).
Hypothesis origVert_original :
  forall v orig : Vertex, origVert !! v = Some orig ->
    (orig < length original)%nat /\ origVert !! orig = Some orig.
Hypothesis grown_original :
  forall v : Vertex, (v < length original)%nat -> (v < length origVert)%nat ->
    grown !! v = original !! v.
Hypothesis grown_length : length grown = length origVert.

Lemma copyOriginalPosition_step (k : nat) (positions : list (Vector3 R)) :
  (k < length origVert)%nat -> copied_below origVert original grown k positions ->
  exists positions' : list (Vector3 R),
    copyOriginalPosition origVert k positions = (Ok tt, positions') /\
    copied_below origVert original grown (S k) positions'.
Proof using origVert_original grown_original grown_length.
  intros Hk (Hlen & Hbelow & Habove).
  destruct (lookup_lt_is_Some_2 origVert k Hk) as [orig Horig].
  destruct (origVert_original k orig Horig) as [Hm Hfix].
  assert (Hin : (orig < length origVert)%nat) by (eapply lookup_lt_Some; exact Hfix).
  destruct (lookup_lt_is_Some_2 original orig Hm) as [p Hp].
  assert (Hpos : positions !! orig = Some p).
  { destruct (decide (orig < k)%nat) as [Hlt | Hge].
    - rewrite (Hbelow orig orig Hlt Hfix). exact Hp.
    - rewrite (Habove orig ltac:(lia)), (grown_original orig Hm Hin). exact Hp. }
  exists (<[k := p]> positions). split.
  - unfold copyOriginalPosition. rewrite run_bind. cbn [get].
    rewrite run_bind. unfold lift at 1. rewrite (at_index_Ok _ _ _ Horig).
    rewrite run_bind. unfold lift at 1. rewrite (at_index_Ok _ _ _ Hpos).
    rewrite run_bind. unfold lift at 1. rewrite set_index_Ok by lia.
    reflexivity.
  - split; [rewrite length_insert; exact Hlen |]. split.
    + intros v orig' Hv Hv'. destruct (decide (v = k)) as [-> | Hne].
      * rewrite list_lookup_insert_eq by lia.
        pose proof (eq_trans (eq_sym Hv') Horig) as E. injection E as ->.
        symmetry. exact Hp.
      * rewrite list_lookup_insert_ne by congruence. apply Hbelow; [lia | exact Hv'].
    + intros v Hv. rewrite list_lookup_insert_ne by lia. apply Habove. lia.
Qed.

Lemma copyOriginalPositions_loop (c : nat) :
  forall (k : nat) (positions : list (Vector3 R)),
  (k + c = length origVert)%nat -> copied_below origVert original grown k positions ->
  exists positions' : list (Vector3 R),
    for_each (seq k c) (copyOriginalPosition origVert) positions = (Ok tt, positions') /\
    copied_below origVert original grown (length origVert) positions'.
Proof using origVert_original grown_original grown_length.
  induction c as [| c IH]; intros k positions Hk Hinv.
  - exists positions. split; [reflexivity |]. replace (length origVert) with k by lia. exact Hinv.
  - destruct (copyOriginalPosition_step k positions ltac:(lia) Hinv) as (p1 & Hstep & Hinv1).
    destruct (IH (S k) p1 ltac:(lia) Hinv1) as (p2 & Hloop & Hinv2).
    exists p2. split; [| exact Hinv2].
    cbn [seq]. rewrite for_each_cons, Hstep. exact Hloop.
Qed.

End VertexSeparation.

Section SeparatedCover.
Context {R : Type} `{Scalar R} `{MeshTypes} `{!GeometryCentral R}.

(** C5.  Given what the separation reports (for every vertex of the
    separated mesh the vertex it came from, which is one of the vertices
    the geometry had a position for and which came from itself), the
    "Split the vertices" step returns, and in the geometry it leaves every
    vertex of the separated mesh has the position its original vertex had
    before the step, which is also the position the original vertex has
    after it. *)
Theorem separated_vertices_keep_original_position
    (mesh mesh' : SurfaceMesh) (origVert : list Vertex) (geom : VertexPositionGeometry R) :
  separateNonmanifoldVertices mesh = (mesh', origVert) ->
  length origVert = nVertices mesh' ->
  (forall v orig : Vertex, origVert !! v = Some orig ->
     (orig < length (inputVertexPositions geom))%nat /\ origVert !! orig = Some orig) ->
  exists geom' : VertexPositionGeometry R,
    splitTheVertices mesh geom = Ok (mesh', origVert, geom') /\
    vpg_mesh geom' = mesh' /\
    length (inputVertexPositions geom') = nVertices mesh' /\
    forall v orig : Vertex, origVert !! v = Some orig ->
      inputVertexPositions geom' !! v = inputVertexPositions geom !! orig /\
      inputVertexPositions geom' !! orig = inputVertexPositions geom !! orig.
Proof.
  intros Hsep Hlen Horig.
  pose (grown := resize (nVertices mesh') (mkVector3 lit_0 lit_0 lit_0)
                   (inputVertexPositions geom)).
  assert (Hgrown : forall v : Vertex,
             (v < length (inputVertexPositions geom))%nat -> (v < length origVert)%nat ->
             grown !! v = inputVertexPositions geom !! v).
  { intros v Hv Hv'. apply lookup_resize; [rewrite <- Hlen; exact Hv' | exact Hv]. }
  assert (Hglen : length grown = length origVert).
  { unfold grown. rewrite length_resize. symmetry. exact Hlen. }
  assert (Hstart : copied_below origVert (inputVertexPositions geom) grown 0 grown).
  { split; [exact Hglen |]. split; [intros v orig Hv; lia | reflexivity]. }
  destruct (copyOriginalPositions_loop origVert (inputVertexPositions geom) grown
              Horig Hgrown Hglen (length origVert) 0%nat grown eq_refl Hstart)
    as (positions & Hloop & Hlen' & Hcopied & _).
  exists (mkVertexPositionGeometry mesh' positions).
  split.
  { unfold splitTheVertices. rewrite Hsep. fold grown. rewrite <- Hlen, Hloop. reflexivity. }
  split; [reflexivity |]. split; [cbn; congruence |].
  intros v orig Hv. cbn [inputVertexPositions].
  destruct (Horig v orig Hv) as [_ Hfix].
  split.
  - apply Hcopied; [eapply lookup_lt_Some; exact Hv | exact Hv].
  - apply Hcopied; [eapply lookup_lt_Some; exact Hfix | exact Hfix].
Qed.

End SeparatedCover.

(** ** Mollification *)

Section Mollification.
Context `{MeshTypes} `{!GeometryCentral float}.

Lemma generateVertexSeparatedTuftedCover_returns
    (mesh : SurfaceMesh) (geometry : VertexPositionGeometry float) (mollifyFactor : float)
    (w : World float) (tuftedMesh2 : SurfaceMesh) (origVert : list Vertex)
    (tuftedGeom2 : VertexPositionGeometry float) (manifoldMesh : ManifoldSurfaceMesh) :
  splitTheVertices (fst (buildTheCover mesh geometry)) (snd (buildTheCover mesh geometry))
    = Ok (tuftedMesh2, origVert, tuftedGeom2) ->
  toManifoldMesh tuftedMesh2 = Ok manifoldMesh ->
  generateVertexSeparatedTuftedCover mesh geometry mollifyFactor w =
  let tuftedGeom3 :=
    mkVertexPositionGeometry (asSurfaceMesh manifoldMesh) (inputVertexPositions tuftedGeom2) in
  let intrinsicGeom :=
    mkEdgeLengthGeometry manifoldMesh
      (mollifyIfRequested manifoldMesh (edgeLengths tuftedGeom3) mollifyFactor) in
  (Ok (mkTuftedCover tuftedMesh2 manifoldMesh tuftedGeom3 intrinsicGeom
         (flipToDelaunay (newSignpostIntrinsicTriangulation manifoldMesh intrinsicGeom))),
   mkWorld (w_stdout w +:+ printStatistics manifoldMesh) (w_stderr w) (w_files w)
     (w_polyscope w)).
Proof.
  intros Hsplit Hmanifold. unfold generateVertexSeparatedTuftedCover. cbv zeta.
  rewrite run_bind. unfold lift at 1. rewrite Hsplit.
  rewrite run_bind. unfold lift at 1. rewrite Hmanifold.
  reflexivity.
Qed.

(** C3 (as the code has it).  When the steps before it succeed, the cover
    is built, and the edge lengths given to the intrinsic geometry are
    those of the manifold geometry, untouched, when the mollification
    factor is zero, and more generally whenever the factor is not strictly
    positive; they are the result of mollifyIntrinsic on those lengths
    exactly when the factor is strictly positive.  A factor that is not
    given on the command line is the default 1e-6 held in a float, which
    is strictly positive. *)
Theorem mollification_only_when_positive
    (mesh : SurfaceMesh) (geometry : VertexPositionGeometry float) (mollifyFactor : float)
    (w : World float) (tuftedMesh2 : SurfaceMesh) (origVert : list Vertex)
    (tuftedGeom2 : VertexPositionGeometry float) (manifoldMesh : ManifoldSurfaceMesh) :
  splitTheVertices (fst (buildTheCover mesh geometry)) (snd (buildTheCover mesh geometry))
    = Ok (tuftedMesh2, origVert, tuftedGeom2) ->
  toManifoldMesh tuftedMesh2 = Ok manifoldMesh ->
  (exists (c : TuftedCover float) (w' : World float),
     generateVertexSeparatedTuftedCover mesh geometry mollifyFactor w = (Ok c, w') /\
     manifoldTuftedMesh c = manifoldMesh /\
     elg_mesh (tuftedIntrinsicGeom c) = manifoldMesh /\
     (mollifyFactor = 0%float ->
        inputEdgeLengths (tuftedIntrinsicGeom c) = edgeLengths (tuftedGeom c)) /\
     (PrimFloat.ltb 0 mollifyFactor = false ->
        inputEdgeLengths (tuftedIntrinsicGeom c) = edgeLengths (tuftedGeom c)) /\
     (PrimFloat.ltb 0 mollifyFactor = true ->
        inputEdgeLengths (tuftedIntrinsicGeom c)
        = mollifyIntrinsic manifoldMesh (edgeLengths (tuftedGeom c)) mollifyFactor)) /\
  (forall a : ParsedArgs float,
     mollifyFactorArg a = None ->
     configured_mollifyFactor a = double_to_float lit_1em6 /\
     PrimFloat.ltb 0 (configured_mollifyFactor a) = true).
Proof.
  intros Hsplit Hmanifold. split.
  - rewrite (generateVertexSeparatedTuftedCover_returns mesh geometry mollifyFactor w
               tuftedMesh2 origVert tuftedGeom2 manifoldMesh Hsplit Hmanifold).
    cbv zeta. eexists _, _. split; [reflexivity |].
    cbn [manifoldTuftedMesh tuftedIntrinsicGeom tuftedGeom elg_mesh inputEdgeLengths].
    split; [reflexivity |]. split; [reflexivity |].
    unfold mollifyIfRequested. cbn [rgtb lit_0 double_Scalar].
    split; [| split]; intros ->; reflexivity.
  - intros a Hunset. unfold configured_mollifyFactor. rewrite Hunset. split; reflexivity.
Qed.

End Mollification.

(** ** The matrix writer *)

Lemma append_assoc (a b c : string) : (a +:+ b) +:+ c = a +:+ (b +:+ c).
Proof.
  induction a as [| ch a IH]; [reflexivity |].
  change (String ch ((a +:+ b) +:+ c) = String ch (a +:+ (b +:+ c))).
  rewrite IH. reflexivity.
Qed.

Lemma append_empty_r (a : string) : a +:+ EmptyString = a.
Proof.
  induction a as [| ch a IH]; [reflexivity |].
  change (String ch (a +:+ EmptyString) = String ch a).
  rewrite IH. reflexivity.
Qed.

Lemma concat_text_app (l1 l2 : list string) :
  concat_text (l1 ++ l2) = concat_text l1 +:+ concat_text l2.
Proof.
  unfold concat_text. induction l1 as [| t l1 IH]; [reflexivity |].
  cbn [app foldr]. rewrite IH. symmetry. apply append_assoc.
Qed.

Section MatrixWriter.
Context {R T : Type} `{!IOStreams T}.

Lemma holding_twice (w : World R) (path text text' : string) :
  holding (holding w path text) path text' = holding w path text'.
Proof. unfold holding. cbn. rewrite insert_insert_eq. reflexivity. Qed.

Lemma write_holding (outFile : ofstream) (w : World R) (content text : string) :
  write outFile text (holding w (os_path outFile) content)
  = (Ok tt, holding w (os_path outFile) (content +:+ text)).
Proof.
  unfold write, holding. cbn. rewrite lookup_insert_eq, insert_insert_eq. reflexivity.
Qed.

Lemma write_each {X} (outFile : ofstream) (text : X -> string) (items : list X) :
  forall (w : World R) (content : string),
  for_each items (fun i => write outFile (text i)) (holding w (os_path outFile) content)
  = (Ok tt, holding w (os_path outFile) (content +:+ concat_text (map text items))).
Proof.
  induction items as [| i items IH]; intros w content.
  - cbn. rewrite append_empty_r. reflexivity.
  - rewrite for_each_cons, write_holding, IH. cbn [map concat_text foldr].
    rewrite append_assoc. reflexivity.
Qed.

Lemma write_column_holding (outFile : ofstream) (matrix : SparseMatrix T) (k : nat)
    (w : World R) (content : string) :
  write_column outFile matrix k (holding w (os_path outFile) content)
  = (Ok tt, holding w (os_path outFile)
              (content +:+ concat_text (map (triplet_line outFile k)
                                          (default [] (outer matrix !! k))))).
Proof. unfold write_column. apply write_each. Qed.

Lemma write_columns_holding (outFile : ofstream) (matrix : SparseMatrix T) (ks : list nat) :
  forall (w : World R) (content : string),
  for_each ks (write_column outFile matrix) (holding w (os_path outFile) content)
  = (Ok tt, holding w (os_path outFile)
              (content +:+ concat_text
                 (concat (map (fun k => map (triplet_line outFile k)
                                          (default [] (outer matrix !! k))) ks)))).
Proof.
  induction ks as [| k ks IH]; intros w content.
  - cbn. rewrite append_empty_r. reflexivity.
  - rewrite for_each_cons, write_column_holding, IH. cbn [map concat].
    rewrite concat_text_app, append_assoc. reflexivity.
Qed.

(* With indices in the range of an int, the line the code writes for an
   entry is the text of the entry: the additions on size_t do not wrap. *)
Lemma triplet_line_text (filename : string) (k : nat) (entry : Z * T) :
  0 <= fst entry <= INT_MAX -> Z.of_nat k <= INT_MAX ->
  triplet_line (setprecision (mkOfstream filename 6) 16) k entry
  = triplet_text (fst entry, Z.of_nat k, snd entry).
Proof.
  unfold INT_MAX. destruct entry as [row val]. cbn [fst snd]. intros Hrow Hcol.
  unfold triplet_line, triplet_text. cbn [fst snd os_precision setprecision].
  rewrite !size_t_succ by lia. reflexivity.
Qed.

Lemma written_lines_are_entry_texts (filename : string) (matrix : SparseMatrix T)
    (ks : list nat) :
  (forall k, k ∈ ks -> Z.of_nat k <= INT_MAX) ->
  (forall k entry, k ∈ ks -> entry ∈ default [] (outer matrix !! k) ->
     0 <= fst entry <= INT_MAX) ->
  concat (map (fun k => map (triplet_line (setprecision (mkOfstream filename 6) 16) k)
                          (default [] (outer matrix !! k))) ks)
  = map triplet_text
      (concat (map (fun k : nat =>
                      map (fun entry : Z * T => (fst entry, Z.of_nat k, snd entry))
                        (default [] (outer matrix !! k))) ks)).
Proof.
  induction ks as [| k ks IH]; intros Hk Hrows; [reflexivity |].
  cbn [map concat]. rewrite map_app, map_map. f_equal.
  - apply map_ext_in. intros entry Hin. apply triplet_line_text.
    + apply (Hrows k entry); [left | apply list_elem_of_In; exact Hin].
    + apply Hk. left.
  - apply IH.
    + intros k' Hk'. apply Hk. right. exact Hk'.
    + intros k' entry Hk' Hentry. apply (Hrows k' entry); [right; exact Hk' | exact Hentry].
Qed.

Lemma stored_entry_of_column (matrix : SparseMatrix T) (k : nat) (entry : Z * T) :
  (k < length (outer matrix))%nat -> entry ∈ default [] (outer matrix !! k) ->
  (fst entry, Z.of_nat k, snd entry) ∈ stored_entries matrix.
Proof.
  intros Hk Hentry. unfold stored_entries.
  apply list_elem_of_In, in_concat.
  exists (map (fun entry : Z * T => (fst entry, Z.of_nat k, snd entry))
            (default [] (outer matrix !! k))).
  split.
  - apply in_map_iff. exists k. split; [reflexivity |]. apply in_seq. lia.
  - apply in_map_iff. exists entry. split; [reflexivity |].
    apply list_elem_of_In. exact Hentry.
Qed.

(** C6.  When the path opens and the matrix has its indices in the range
    of an int, the writer returns and the file holds exactly the texts of
    the stored entries, one after the other in storage order and nothing
    before them: for each entry the row plus 1, a space, the column plus
    1, a space, the value as the stream prints it at precision 16, and an
    end of line. *)
Theorem saveMatrix_writes_one_triplet_per_entry
    (filename : string) (matrix : SparseMatrix T) (w : World R) :
  opens_for_writing (w_files w) filename = true ->
  Z.of_nat (length (outer matrix)) <= INT_MAX ->
  (forall (row col : Z) (val : T),
     (row, col, val) ∈ stored_entries matrix -> 0 <= row <= INT_MAX) ->
  saveMatrix filename matrix w = (Ok tt, saved_world w filename matrix) /\
  w_files (saved_world w filename matrix) !! filename
    = Some (concat_text (map triplet_text (stored_entries matrix))) /\
  length (map triplet_text (stored_entries matrix)) = length (stored_entries matrix) /\
  forall (row col : Z) (val : T),
    triplet_text (row, col, val)
    = show_size_t (row + 1) +:+ " " +:+ show_size_t (col + 1) +:+ " "
        +:+ show_value 16 val +:+ endl.
Proof.
  intros Hopen Hcols Hrows. split; [| split; [| split]].
  - unfold saveMatrix. rewrite run_bind. cbn [cout].
    rewrite run_bind. unfold open at 1. cbn [w_files]. rewrite Hopen.
    change (mkWorld ?out ?err (<[filename := EmptyString]> ?files) ?calls)
      with (holding (mkWorld out err files calls)
              (os_path (setprecision (mkOfstream filename 6) 16)) EmptyString).
    rewrite write_columns_holding.
    rewrite written_lines_are_entry_texts.
    + reflexivity.
    + intros k Hk. apply list_elem_of_In, in_seq in Hk. lia.
    + intros k entry Hk Hentry. apply list_elem_of_In, in_seq in Hk.
      apply (Hrows (fst entry) (Z.of_nat k) (snd entry)).
      apply stored_entry_of_column; [lia | exact Hentry].
  - unfold saved_world. cbn [w_files]. apply lookup_insert_eq.
  - apply length_map.
  - reflexivity.
Qed.

Lemma saveMatrix_throws (filename : string) (matrix : SparseMatrix T) (w : World R) :
  opens_for_writing (w_files w) filename = false ->
  saveMatrix filename matrix w
  = (Throw ("failed to open output file " +:+ filename),
     mkWorld (w_stdout w +:+ "Writing sparse matrix to: " +:+ filename +:+ endl)
       (w_stderr w) (w_files w) (w_polyscope w)).
Proof.
  intros Hopen. unfold saveMatrix. rewrite run_bind. cbn [cout].
  rewrite run_bind. unfold open at 1. cbn [w_files]. rewrite Hopen. reflexivity.
Qed.

(** C8.  When the path does not open, the writer throws a runtime error
    whose message is "failed to open output file " followed by the file
    name; it has written its notice to standard output and nothing else:
    the files are as they were. *)
Theorem saveMatrix_fails_without_writing
    (filename : string) (matrix : SparseMatrix T) (w : World R) :
  opens_for_writing (w_files w) filename = false ->
  saveMatrix filename matrix w
  = (Throw ("failed to open output file " +:+ filename),
     mkWorld (w_stdout w +:+ "Writing sparse matrix to: " +:+ filename +:+ endl)
       (w_stderr w) (w_files w) (w_polyscope w)) /\
  w_files (snd (saveMatrix filename matrix w)) = w_files w.
Proof.
  intros Hopen. rewrite (saveMatrix_throws filename matrix w Hopen). split; reflexivity.
Qed.

End MatrixWriter.

(** ** The command line *)

Section MainProperties.
Context {R : Type} `{Scalar R} `{MeshTypes} `{!GeometryCentral R} `{!BubbleOffsetLib R}.
Context `{!IOStreams R} `{!ArgsLibrary R}.

(** C7 (as the code has it).  When the arguments fail to parse, the
    program prints the parser's message and its usage text to standard
    error and returns 1.  When they parse but name no mesh, it prints the
    usage text to standard output and returns 1.  (On a request for help
    it prints the usage text to standard output and returns 0.)  In each
    case nothing else is printed, written or drawn. *)
Theorem usage_errors_return_1 (argv : list string) (frames : list (Frame R)) (w : World R) :
  match ParseCLI argv with
  | ParseError what =>
      main argv frames w
      = (Ok 1, mkWorld (w_stdout w) ((w_stderr w +:+ (what +:+ endl)) +:+ usage argv)
                 (w_files w) (w_polyscope w))
  | Parsed a =>
      match inputFilename a with
      | None =>
          main argv frames w
          = (Ok 1, mkWorld (w_stdout w +:+ usage argv) (w_stderr w) (w_files w) (w_polyscope w))
      | Some _ => True
      end
  | Help =>
      main argv frames w
      = (Ok 0, mkWorld (w_stdout w +:+ usage argv) (w_stderr w) (w_files w) (w_polyscope w))
  end.
Proof.
  unfold main. destruct (ParseCLI argv) as [a | | what]; [| reflexivity | reflexivity].
  destruct (inputFilename a); [exact I | reflexivity].
Qed.

(* An exception of the writer is not caught: the run ends with it, and the
   files are as they were. *)
Lemma main_aborts_when_laplacian_file_does_not_open
    (argv : list string) (frames : list (Frame R)) (w : World R) (a : ParsedArgs R)
    (meshFile : string) (loaded : SimplePolygonMesh R) (mesh : SurfaceMesh)
    (geometry : VertexPositionGeometry R) (L M : SparseMatrix R) :
  ParseCLI argv = Parsed a ->
  inputFilename a = Some meshFile ->
  readSimplePolygonMesh (w_files w) meshFile = Ok loaded ->
  makeGeneralHalfedgeAndGeometry
    (polygons (triangulate (stripUnusedVertices (stripFacesWithDuplicateVertices loaded))))
    (vertexCoordinates
       (triangulate (stripUnusedVertices (stripFacesWithDuplicateVertices loaded))))
    = Ok (mesh, geometry) ->
  buildTuftedLaplacian mesh geometry (configured_mollifyFactor a) = Ok (L, M) ->
  writeLaplacian a = true ->
  opens_for_writing (w_files w) (default "tufted_" (outputPrefixArg a) +:+ "laplacian.spmat")
    = false ->
  fst (main argv frames w)
    = Throw ("failed to open output file "
             +:+ default "tufted_" (outputPrefixArg a) +:+ "laplacian.spmat") /\
  w_files (snd (main argv frames w)) = w_files w.
Proof.
  intros Hparse Hfile Hload Hmake Hbuild Hwrite Hopen.
  enough (Hrun : exists w' : World R,
             main argv frames w
             = (Throw ("failed to open output file "
                       +:+ default "tufted_" (outputPrefixArg a) +:+ "laplacian.spmat"), w')
             /\ w_files w' = w_files w).
  { destruct Hrun as (w' & -> & Hfiles). split; [reflexivity | exact Hfiles]. }
  eexists. split; [| shelve].
  unfold main. rewrite Hparse, Hfile. cbv zeta.
  rewrite run_bind. cbn [get].
  rewrite run_bind. unfold lift at 1. rewrite Hload.
  rewrite run_bind. unfold lift at 1. rewrite Hmake.
  rewrite run_bind. cbn [cout].
  rewrite run_bind. unfold lift at 1. rewrite Hbuild.
  rewrite run_bind. cbn [cout].
  rewrite run_bind, Hwrite.
  rewrite saveMatrix_throws by exact Hopen.
  reflexivity.
  Unshelve. reflexivity.
Qed.

End MainProperties.

(** ** The program on the triangle *)

Section OnTheTriangle.
#[local] Existing Instance Triangle.meshTypes.
#[local] Existing Instance Triangle.geometryCentral.
#[local] Existing Instance Triangle.bubbleOffsetLib.
#[local] Existing Instance Triangle.argsLibrary.

(* The trace of edge 0 with its length shortened: it leaves vertex 0 and
   stops inside the side, short of vertex 1. *)
Lemma shortened_trace_of_edge_0 :
  traceHalfedge (with_length (Triangle.unit_triangulation (R := float)) 0%nat
                   (rmul lit_1 lit_999)) 0%nat false
  = Ok [VertexPoint 0%nat; FacePoint 0%nat (Triangle.between 0 1 (rmul lit_1 lit_999))].
Proof. reflexivity. Qed.

Lemma triangle_pairs_in_face :
  consecutive_in_shared_face (R := float) 3%nat
    [VertexPoint 0%nat; FacePoint 0%nat (Triangle.between 0 1 (rmul lit_1 lit_999))].
Proof.
  intros i pA pB HA HB. destruct i as [| [| i]]; cbn in HA, HB; try discriminate.
  injection HA as <-. injection HB as <-.
  eexists _, _. split; reflexivity.
Qed.

Lemma trace_nudges_and_restores_length_witness :
  intrinsicEdgeLengths (Triangle.unit_triangulation (R := float)) !! 0%nat = Some lit_1 /\
  traceShortened 0%nat (mkTracing (Triangle.unit_triangulation (R := float)) [])
  = (Ok [VertexPoint 0%nat; FacePoint 0%nat (Triangle.between 0 1 (rmul lit_1 lit_999))],
     mkTracing Triangle.unit_triangulation []).
Proof.
  split; [reflexivity |].
  exact (proj1 (proj2 (trace_nudges_and_restores_length
                         (Triangle.unit_triangulation (R := float)) [] 0%nat lit_1 eq_refl)
                  _ shortened_trace_of_edge_0)).
Defined.

Lemma traced_line_layout_witness :
  exists line : list (Vector3 float),
    traceEdge (Triangle.flat_geometry (R := float)) lit_0 1 0%nat
      (mkTracing Triangle.unit_triangulation [])
    = (Ok tt, mkTracing Triangle.unit_triangulation [line]) /\
    Z.of_nat (length line) = 3.
Proof.
  destruct (traced_line_layout (Triangle.flat_geometry (R := float)) lit_0 1
              Triangle.unit_triangulation [] 0%nat lit_1 _
              ltac:(lia) eq_refl shortened_trace_of_edge_0 ltac:(cbn; lia)
              triangle_pairs_in_face)
    as (line & Hrun & Hlen & _).
  exists line. split; [exact Hrun | exact Hlen].
Defined.

(* The endpoint tracer on edge 0, which runs from vertex 0 to vertex 1. *)
Lemma endpoint_trace_of_edge_0 :
  traceHalfedge (GeometryCentral := TriangleVariants.endpoint_tracer)
    (with_length (Triangle.unit_triangulation (R := float)) 0%nat (rmul lit_1 lit_999))
    0%nat false
  = Ok [VertexPoint 0%nat; VertexPoint 1%nat].
Proof. reflexivity. Qed.

Lemma triangle_endpoints_in_face :
  consecutive_in_shared_face (R := float)
    (GeometryCentral0 := TriangleVariants.endpoint_tracer) 3%nat
    [VertexPoint 0%nat; VertexPoint 1%nat].
Proof.
  intros i pA pB HA HB. destruct i as [| [| i]]; cbn in HA, HB; try discriminate.
  injection HA as <-. injection HB as <-.
  eexists _, _. split; reflexivity.
Qed.


Lemma regeneration_is_repeatable_witness :
  exists s1 : Session float,
    generateVisualization (Triangle.triangle_session (R := float)) = (Ok tt, s1) /\
    fst (generateVisualization s1) = Ok tt /\
    cover s1 = Triangle.triangle_cover.
Proof.
  pose (s1 := snd (generateVisualization (Triangle.triangle_session (R := float)))).
  assert (Hrun : generateVisualization (Triangle.triangle_session (R := float)) = (Ok tt, s1))
    by (vm_compute; reflexivity).
  exists s1. split; [exact Hrun |].
  destruct (regeneration_is_repeatable _ s1 Hrun) as (subSoup & lines & _ & Hs1 & Hagain).
  split; [rewrite Hagain; reflexivity | rewrite Hs1; reflexivity].
Defined.

Lemma triangle_splits :
  splitTheVertices (R := float)
    (fst (buildTheCover Triangle.triangle_mesh Triangle.flat_geometry))
    (snd (buildTheCover Triangle.triangle_mesh Triangle.flat_geometry))
  = Ok (Triangle.triangle_mesh, [0; 1; 2]%nat, Triangle.flat_geometry).
Proof. vm_compute. reflexivity. Qed.

Lemma mollification_only_when_positive_witness :
  exists (c : TuftedCover float) (w' : World float),
    generateVertexSeparatedTuftedCover (R := float) Triangle.triangle_mesh
      Triangle.flat_geometry lit_0 Triangle.empty_world = (Ok c, w') /\
    inputEdgeLengths (tuftedIntrinsicGeom c) = edgeLengths (tuftedGeom c).
Proof.
  destruct (proj1 (mollification_only_when_positive Triangle.triangle_mesh
                     (Triangle.flat_geometry (R := float)) lit_0 Triangle.empty_world
                     Triangle.triangle_mesh [0; 1; 2]%nat
                     (Triangle.flat_geometry (R := float)) 3%nat triangle_splits eq_refl))
    as (c & w' & Hrun & _ & _ & Hzero & _).
  exists c, w'. split; [exact Hrun | apply Hzero; reflexivity].
Defined.

(* C3, as stated, fails for a factor left unset: a command line with the
   GUI and without --mollifyFactor configures a strictly positive factor,
   and the cover built with it has its edge lengths mollified. *)
Lemma unset_factor_is_mollified :
  ParseCLI (R := float) ["tufted-idt"; "triangle.obj"; "--gui"]
    = Parsed (mkParsedArgs (Some "triangle.obj") None true None false false) /\
  exists (c : TuftedCover float) (w' : World float),
    generateVertexSeparatedTuftedCover (R := float) Triangle.triangle_mesh
      Triangle.flat_geometry
      (configured_mollifyFactor
         (mkParsedArgs (Some "triangle.obj") None true None false false))
      Triangle.empty_world = (Ok c, w') /\
    inputEdgeLengths (tuftedIntrinsicGeom c) <> edgeLengths (tuftedGeom c).
Proof.
  split; [reflexivity |].
  eexists _, _. split; [vm_compute; reflexivity |].
  intros E.
  apply (f_equal (fun lengths : list float =>
                    match lengths with
                    | len :: _ => PrimFloat.ltb 1 len
                    | [] => false
                    end)) in E.
  vm_compute in E. discriminate E.
Qed.

Lemma bowtie_origins (v orig : Vertex) :
  [0; 1; 2; 3; 4; 2]%nat !! v = Some orig ->
  (orig < 5)%nat /\ [0; 1; 2; 3; 4; 2]%nat !! orig = Some orig.
Proof.
  destruct v as [| [| [| [| [| [| v]]]]]]; cbn; intros E; try discriminate;
    injection E as <-; split; (lia || reflexivity).
Qed.

Lemma bowtie_separates :
  separateNonmanifoldVertices (R := Q) Triangle.bowtie
  = (Triangle.split_bowtie, [0; 1; 2; 3; 4; 2]%nat).
Proof. reflexivity. Qed.

Lemma separated_vertices_keep_original_position_witness :
  exists geom' : VertexPositionGeometry Q,
    splitTheVertices Triangle.bowtie Triangle.bowtie_geometry
      = Ok (Triangle.split_bowtie, [0; 1; 2; 3; 4; 2]%nat, geom') /\
    inputVertexPositions geom' !! 5%nat = Some (mkVector3 1%Q 1%Q 0%Q) /\
    inputVertexPositions geom' !! 2%nat = Some (mkVector3 1%Q 1%Q 0%Q).
Proof.
  destruct (separated_vertices_keep_original_position (R := Q)
              Triangle.bowtie Triangle.split_bowtie [0; 1; 2; 3; 4; 2]%nat
              Triangle.bowtie_geometry
              bowtie_separates eq_refl bowtie_origins)
    as (geom' & Hrun & _ & _ & Hpos).
  exists geom'. split; [exact Hrun |].
  destruct (Hpos 5%nat 2%nat eq_refl) as [Hcopy Horig].
  split; [exact (eq_trans Hcopy eq_refl) | exact (eq_trans Horig eq_refl)].
Defined.

Lemma small_matrix_rows (row col val : Z) :
  (row, col, val) ∈ stored_entries Triangle.small_matrix -> 0 <= row <= INT_MAX.
Proof.
  change (stored_entries Triangle.small_matrix) with [(0, 0, 5); (2, 0, -7); (1, 2, 3)].
  rewrite !elem_of_cons, elem_of_nil. unfold INT_MAX.
  intros [E | [E | [E | []]]]; injection E as -> _ _; lia.
Qed.

Lemma saveMatrix_writes_one_triplet_per_entry_witness :
  saveMatrix (IOStreams0 := Triangle.ioStreams) "L.spmat" Triangle.small_matrix
    (Triangle.empty_world (R := float))
  = (Ok tt, saved_world (IOStreams0 := Triangle.ioStreams) Triangle.empty_world "L.spmat"
              Triangle.small_matrix) /\
  concat_text (map (triplet_text (IOStreams0 := Triangle.ioStreams))
                 (stored_entries Triangle.small_matrix))
  = "1 1 5" +:+ endl +:+ "3 1 -7" +:+ endl +:+ "2 3 3" +:+ endl.
Proof.
  split; [| reflexivity].
  exact (proj1 (saveMatrix_writes_one_triplet_per_entry (IOStreams0 := Triangle.ioStreams)
                  "L.spmat" Triangle.small_matrix (Triangle.empty_world (R := float))
                  eq_refl ltac:(unfold INT_MAX; cbn; lia) small_matrix_rows)).
Defined.

Lemma saveMatrix_fails_without_writing_witness :
  saveMatrix (IOStreams0 := Triangle.ioStreams) "/missing/L.spmat" Triangle.small_matrix
    (Triangle.empty_world (R := float))
  = (Throw "failed to open output file /missing/L.spmat",
     mkWorld ("Writing sparse matrix to: /missing/L.spmat" +:+ endl) "" ∅ []).
Proof.
  exact (proj1 (saveMatrix_fails_without_writing (IOStreams0 := Triangle.ioStreams)
                  "/missing/L.spmat" Triangle.small_matrix
                  (Triangle.empty_world (R := float)) eq_refl)).
Defined.

(* C7, as stated, fails when no mesh is named: the run returns 1, the
   usage text is on standard output and standard error is empty. *)
Lemma missing_mesh_usage_goes_to_stdout :
  ParseCLI (R := float) ["tufted-idt"]
    = Parsed (mkParsedArgs None None false None false false) /\
  main (R := float) (IOStreams0 := Triangle.ioStreams_scalar) ["tufted-idt"] []
    Triangle.empty_world
  = (Ok 1, mkWorld (usage (R := float) ["tufted-idt"]) "" ∅ []) /\
  w_stderr (snd (main (R := float) (IOStreams0 := Triangle.ioStreams_scalar)
                   ["tufted-idt"] [] Triangle.empty_world)) = "" /\
  usage (R := float) ["tufted-idt"] <> "".
Proof.
  split; [reflexivity |]. split; [reflexivity |]. split; [reflexivity |].
  intros E. vm_compute in E. discriminate E.
Qed.

End OnTheTriangle.

(** * Further properties *)

(** ** What a program leaves as it was *)

Lemma keeps_ret {S A X} (f : S -> X) (a : A) : keeps f (mret a : Prog S A).
Proof. intros s. reflexivity. Qed.

Lemma keeps_lift {S A X} (f : S -> X) (r : Result A) : keeps f (lift (S := S) r).
Proof. intros s. reflexivity. Qed.

Lemma keeps_get {S X} (f : S -> X) : keeps f (get (S := S)).
Proof. intros s. reflexivity. Qed.

Lemma keeps_bind {S A B X} (f : S -> X) (m : Prog S A) (k : A -> Prog S B) :
  keeps f m -> (forall a, keeps f (k a)) -> keeps f (m ≫= k).
Proof.
  intros Hm Hk s. rewrite run_bind. specialize (Hm s).
  destruct (m s) as [[a | what |] s1]; cbn [snd] in *; [| exact Hm | exact Hm].
  rewrite (Hk a s1). exact Hm.
Qed.

Lemma keeps_for_each {S I X} (f : S -> X) (items : list I) (body : I -> Prog S unit) :
  (forall i, keeps f (body i)) -> keeps f (for_each items body).
Proof.
  intros Hbody. induction items as [| i items IH].
  - apply keeps_ret.
  - cbn [for_each]. apply keeps_bind; [apply Hbody | intros _; exact IH].
Qed.

Lemma keeps_if {S A X} (f : S -> X) (b : bool) (m1 m2 : Prog S A) :
  keeps f m1 -> keeps f m2 -> keeps f (if b then m1 else m2).
Proof. destruct b; intros H1 H2; assumption. Qed.

(** ** The length nudge when the trace fails, and the empty trace *)

Section TracingEdgeCases.
Context {R : Type} `{Scalar R} `{MeshTypes} `{!GeometryCentral R} `{!BubbleOffsetLib R}.

(** X1.  There is no restore on the way out of an exception: when the
    trace of the shortened edge throws, the call throws the same
    exception and the triangulation is left with the edge's length
    multiplied by 0.999, the other lengths being what they were. *)
Theorem traceShortened_throw_leaves_length_shortened
    (tri : SignpostIntrinsicTriangulation R) (lines : list (list (Vector3 R)))
    (e : Edge) (oldLen : R) (what : string) :
  intrinsicEdgeLengths tri !! e = Some oldLen ->
  traceHalfedge (with_length tri e (rmul oldLen lit_999)) (halfedge (tri_mesh tri) e) false
    = Throw what ->
  traceShortened e (mkTracing tri lines)
    = (Throw what, mkTracing (with_length tri e (rmul oldLen lit_999)) lines) /\
  intrinsicEdgeLengths (with_length tri e (rmul oldLen lit_999)) !! e
    = Some (rmul oldLen lit_999) /\
  forall e' : Edge, e' <> e ->
    intrinsicEdgeLengths (with_length tri e (rmul oldLen lit_999)) !! e'
    = intrinsicEdgeLengths tri !! e'.
Proof.
  intros Hold Htrace.
  assert (He : (e < length (intrinsicEdgeLengths tri))%nat)
    by (eapply lookup_lt_Some; exact Hold).
  split; [| split].
  - unfold traceShortened. rewrite run_bind. cbn [get tr_signpostTri tr_lines].
    rewrite run_bind. unfold lift at 1. rewrite (at_index_Ok _ _ _ Hold).
    rewrite run_bind. unfold lift at 1. rewrite set_intrinsicEdgeLength_Ok by exact He.
    rewrite run_bind. cbn [put].
    rewrite run_bind. unfold lift at 1. rewrite Htrace. reflexivity.
  - unfold with_length. cbn. apply list_lookup_insert_eq. exact He.
  - intros e' Hne. unfold with_length. cbn. apply list_lookup_insert_ne. congruence.
Qed.

(** X2.  The first point of the path is taken without a check: when the
    trace returns an empty path, the length has been restored and an
    empty line has been started, and the call then runs into undefined
    behaviour (front() of an empty vector). *)
Theorem traceEdge_empty_trace_is_undefined
    (bubbleGeom : VertexPositionGeometry R) (relativeScale : R) (nPoints : Z)
    (tri : SignpostIntrinsicTriangulation R) (ls : list (list (Vector3 R)))
    (e : Edge) (oldLen : R) :
  intrinsicEdgeLengths tri !! e = Some oldLen ->
  traceHalfedge (with_length tri e (rmul oldLen lit_999)) (halfedge (tri_mesh tri) e) false
    = Ok [] ->
  traceEdge bubbleGeom relativeScale nPoints e (mkTracing tri ls)
    = (Undefined, mkTracing tri (ls ++ [[]])).
Proof.
  intros Hold Htrace. unfold traceEdge.
  rewrite run_bind, (traceShortened_returns tri ls e oldLen [] Hold Htrace).
  rewrite run_bind. cbn [get tr_signpostTri].
  unfold pushLine. rewrite run_bind. cbn [get tr_signpostTri tr_lines].
  rewrite run_bind. cbn [put]. reflexivity.
Qed.

(* Without interpolated points a line is the path itself. *)
Lemma line_points_without_interpolation (nPoints : Z) (mesh : ManifoldSurfaceMesh)
    (points : list (SurfacePoint R)) :
  nPoints <= 0 -> points <> [] -> consecutive_in_shared_face mesh points ->
  line_points nPoints mesh points = points.
Proof.
  intros HN Hne Hin. apply list_eq. intros i.
  assert (Hzero : Z.to_nat nPoints = 0%nat) by lia.
  pose proof (line_points_length nPoints mesh points Hin Hne) as Hlen.
  rewrite Hzero in Hlen.
  assert (Hpos : (0 < length points)%nat)
    by (clear - Hne; destruct points; [congruence | cbn; lia]).
  destruct (points !! i) as [p |] eqn:Hp.
  - pose proof (line_points_traced nPoints mesh points Hin i p Hp) as Hline.
    rewrite Hzero in Hline. replace (i * (0 + 1))%nat with i in Hline by lia. exact Hline.
  - apply lookup_ge_None. apply lookup_ge_None in Hp. lia.
Qed.

(** X3.  With pointsPerTriEdge zero or negative the inner loop does not
    run: the line added for an edge is exactly the images of the traced
    points, in order (the points are still brought into their shared
    faces, which must succeed). *)
Theorem traced_line_without_interpolation
    (bubbleGeom : VertexPositionGeometry R) (relativeScale : R) (nPoints : Z)
    (tri : SignpostIntrinsicTriangulation R) (ls : list (list (Vector3 R)))
    (e : Edge) (oldLen : R) (points : list (SurfacePoint R)) :
  nPoints <= 0 ->
  intrinsicEdgeLengths tri !! e = Some oldLen ->
  traceHalfedge (with_length tri e (rmul oldLen lit_999)) (halfedge (tri_mesh tri) e) false
    = Ok points ->
  points <> [] ->
  consecutive_in_shared_face (inputMesh tri) points ->
  traceEdge bubbleGeom relativeScale nPoints e (mkTracing tri ls)
    = (Ok tt, mkTracing tri (ls ++ [map (queryPoint bubbleGeom relativeScale) points])).
Proof.
  intros HN Hold Htrace Hne Hin.
  rewrite (traceEdge_spec bubbleGeom relativeScale nPoints tri ls e oldLen points
             Hold Htrace Hne Hin).
  rewrite (line_points_without_interpolation nPoints _ points HN Hne Hin). reflexivity.
Qed.

End TracingEdgeCases.

(** ** One line per edge *)

Lemma last_two {A} (l : list A) (a b : A) : last (l ++ [a; b]) = Some b.
Proof. change [a; b] with ([a] ++ [b]). rewrite app_assoc. apply last_snoc. Qed.

Section LinesOfARun.
Context {R : Type} `{Scalar R} `{MeshTypes} `{!GeometryCentral R} `{!BubbleOffsetLib R}.

Lemma extends_lift {A} (r : Result A) : extends_open_line (lift (S := Tracing R) r).
Proof. intros tri ls b. exists []. cbn. rewrite app_nil_r. reflexivity. Qed.

Lemma extends_bind {A B} (m : Prog (Tracing R) A) (k : A -> Prog (Tracing R) B) :
  extends_open_line m -> (forall a, extends_open_line (k a)) -> extends_open_line (m ≫= k).
Proof.
  intros Hm Hk tri ls b. rewrite run_bind.
  destruct (Hm tri ls b) as [added1 Hlines1].
  destruct (m (mkTracing tri (ls ++ [b]))) as [[a | what |] [tri1 lines1]];
    cbn [snd tr_lines] in *; subst lines1; [| exists added1; reflexivity ..].
  destruct (Hk a tri1 ls (b ++ added1)) as [added2 Hlines2].
  exists (added1 ++ added2). rewrite Hlines2, app_assoc. reflexivity.
Qed.

Lemma extends_for_each {X} (items : list X) (body : X -> Prog (Tracing R) unit) :
  (forall i, extends_open_line (body i)) -> extends_open_line (for_each items body).
Proof.
  intros Hbody. induction items as [| i items IH].
  - intros tri ls b. exists []. cbn. rewrite app_nil_r. reflexivity.
  - cbn [for_each]. apply extends_bind; [apply Hbody | intros _; exact IH].
Qed.

Lemma extends_pushLinePoint geom s (p : SurfacePoint R) :
  extends_open_line (pushLinePoint geom s p).
Proof.
  intros tri ls b. exists [queryPoint geom s p]. rewrite pushLinePoint_snoc. reflexivity.
Qed.

Lemma extends_pushSegment geom s n mesh points (i : nat) :
  extends_open_line (pushSegment geom s n mesh points i).
Proof.
  unfold pushSegment.
  apply extends_bind; [apply extends_lift | intros pA].
  apply extends_bind; [apply extends_lift | intros pB].
  apply extends_bind; [apply extends_lift | intros pAF].
  apply extends_bind; [apply extends_lift | intros pBF].
  apply extends_bind; [| intros _; apply extends_pushLinePoint].
  apply extends_for_each. intros p. apply extends_pushLinePoint.
Qed.

(* Whatever its outcome, pushLine adds one line to the lines it found; the
   line is not empty when it returns. *)
Lemma pushLine_adds_line geom s n mesh points (st : Tracing R) :
  exists line : list (Vector3 R),
    tr_lines (snd (pushLine geom s n mesh points st)) = tr_lines st ++ [line] /\
    (fst (pushLine geom s n mesh points st) = Ok tt -> line <> []).
Proof.
  destruct st as [tri ls]. unfold pushLine.
  rewrite run_bind. cbn [get tr_lines tr_signpostTri].
  rewrite run_bind. cbn [put].
  destruct points as [| first rest].
  - exists []. split; [reflexivity | discriminate].
  - rewrite run_bind. unfold lift at 1. cbn [front].
    rewrite run_bind, pushLinePoint_snoc.
    destruct (extends_for_each (seq 0 (length (first :: rest) - 1))
                (pushSegment geom s n mesh (first :: rest))
                (fun i => extends_pushSegment geom s n mesh (first :: rest) i)
                tri ls ([] ++ [queryPoint geom s first])) as [added Hlines].
    exists (([] ++ [queryPoint geom s first]) ++ added).
    split; [exact Hlines | intros _; discriminate].
Qed.

Lemma traceShortened_keeps_lines (e : Edge) (st : Tracing R) :
  tr_lines (snd (traceShortened e st)) = tr_lines st.
Proof.
  unfold traceShortened. rewrite run_bind. cbn [get].
  rewrite run_bind. unfold lift at 1.
  destruct (at_index _ e) as [oldLen | what |]; [| reflexivity ..].
  rewrite run_bind. unfold lift at 1.
  destruct (set_intrinsicEdgeLength _ e _) as [shortened | what |]; [| reflexivity ..].
  rewrite run_bind. cbn [put].
  rewrite run_bind. unfold lift at 1.
  destruct (traceHalfedge _ _ false) as [points | what |]; [| reflexivity ..].
  rewrite run_bind. unfold lift at 1.
  destruct (set_intrinsicEdgeLength _ e _) as [restored | what |]; reflexivity.
Qed.

(* A round of the loop that returns has added one line, which is not
   empty. *)
Lemma traceEdge_adds_line geom s n (e : Edge) (st st' : Tracing R) :
  traceEdge geom s n e st = (Ok tt, st') ->
  exists line : list (Vector3 R), tr_lines st' = tr_lines st ++ [line] /\ line <> [].
Proof.
  unfold traceEdge. rewrite run_bind.
  pose proof (traceShortened_keeps_lines e st) as Hkeep.
  destruct (traceShortened e st) as [[points | what |] st1]; try discriminate.
  cbn [snd] in Hkeep. rewrite run_bind. cbn [get].
  intros Hrun.
  destruct (pushLine_adds_line geom s n (inputMesh (tr_signpostTri st1)) points st1)
    as (line & Hlines & Hnonempty).
  rewrite Hrun in Hlines, Hnonempty. cbn [fst snd] in Hlines, Hnonempty.
  exists line. split; [rewrite Hlines, Hkeep; reflexivity | apply Hnonempty; reflexivity].
Qed.

Lemma traceEdges_add_lines geom s n (es : list Edge) :
  forall st st' : Tracing R,
  for_each es (traceEdge geom s n) st = (Ok tt, st') ->
  exists new : list (list (Vector3 R)),
    tr_lines st' = tr_lines st ++ new /\ length new = length es /\
    Forall (fun line => line <> []) new.
Proof.
  induction es as [| e es IH]; intros st st' Hrun.
  - cbn in Hrun. injection Hrun as <-. exists []. rewrite app_nil_r. repeat split. constructor.
  - rewrite for_each_cons in Hrun.
    destruct (traceEdge geom s n e st) as [[[] | what |] st1] eqn:Hedge; try discriminate.
    destruct (traceEdge_adds_line geom s n e st st1 Hedge) as (line & Hline & Hne).
    destruct (IH st1 st' Hrun) as (new & Hnew & Hlen & Hall).
    exists (line :: new). split; [| split].
    + rewrite Hnew, Hline, <- app_assoc. reflexivity.
    + cbn. rewrite Hlen. reflexivity.
    + constructor; assumption.
Qed.

Lemma traceAllEdges_world_kept (s : Session R) :
  world (snd (traceAllEdges s)) = world s /\
  bubbleScale (snd (traceAllEdges s)) = bubbleScale s /\
  subdivLevel (snd (traceAllEdges s)) = subdivLevel s /\
  pointsPerTriEdge (snd (traceAllEdges s)) = pointsPerTriEdge s.
Proof.
  unfold traceAllEdges.
  destruct (for_each _ _ _) as [[[] | what |] st]; repeat split.
Qed.

(** X4.  A run of generateVisualization that returns has handed polyscope,
    as its last call, the curve quantity "intrinsic edges" on the surface
    "bubble tufted cover", enabled, with exactly one line per edge of the
    intrinsic mesh, none of them empty. *)
Theorem generateVisualization_one_line_per_edge (s s1 : Session R) :
  generateVisualization s = (Ok tt, s1) ->
  exists lines : list (list (Vector3 R)),
    last (w_polyscope (world s1))
      = Some (AddSurfaceGraphQuantity "bubble tufted cover" "intrinsic edges" lines true) /\
    length lines = length (edges (tri_mesh (signpostTri (cover s)))) /\
    Forall (fun line => line <> []) lines.
Proof.
  rewrite generateVisualization_run. cbv zeta.
  destruct (traceAllEdges s) as [[lines | what |] s'] eqn:Htrace; try discriminate.
  intros Hrun. injection Hrun as <-. exists lines. split.
  { unfold add_polyscope_calls. cbn [world w_polyscope]. apply last_two. }
  unfold traceAllEdges in Htrace.
  destruct (for_each _ _ _) as [[[] | what |] st] eqn:Hloop; try discriminate.
  injection Htrace as <- _.
  destruct (traceEdges_add_lines _ _ _ _ _ _ Hloop) as (new & Hnew & Hlen & Hall).
  cbn [tr_lines app] in Hnew. subst new. split; assumption.
Qed.

(** X5.  The surface is registered before the edges are traced and the
    curves are added after: a run that does not return (a trace or a
    change of face threw, or it ran into undefined behaviour) has made
    exactly one call to polyscope, the registration of the surface
    "bubble tufted cover"; it has added no curves. *)
Theorem generateVisualization_failure_registers_only (s : Session R) :
  fst (generateVisualization s) <> Ok tt ->
  w_polyscope (world (snd (generateVisualization s)))
  = w_polyscope (world s)
    ++ [RegisterSurfaceMesh "bubble tufted cover"
          (vertexCoordinates
             (subdivideRounded (manifoldTuftedMesh (cover s)) (tuftedGeom (cover s))
                (subdivLevel s) (bubbleScale s) 0 0))
          (polygons
             (subdivideRounded (manifoldTuftedMesh (cover s)) (tuftedGeom (cover s))
                (subdivLevel s) (bubbleScale s) 0 0))].
Proof.
  rewrite generateVisualization_run. cbv zeta.
  destruct (traceAllEdges_world_kept s) as (Hworld & _).
  destruct (traceAllEdges s) as [[lines | what |] s']; cbn [fst snd] in *;
    intros Hfail; [congruence | |];
    unfold add_polyscope_calls; cbn [world w_polyscope]; rewrite Hworld; reflexivity.
Qed.

End LinesOfARun.

(** ** The GUI callback *)

Section CallbackProperties.
Context {R : Type} `{Scalar R} `{MeshTypes} `{!GeometryCentral R} `{!BubbleOffsetLib R}.

Lemma generateVisualization_returns_same_cover (s s' : Session R) :
  generateVisualization s = (Ok tt, s') -> cover s' = cover s.
Proof.
  rewrite generateVisualization_run. cbv zeta.
  destruct (traceAllEdges s) as [[lines | what |] s1] eqn:Htrace; try discriminate.
  intros Hrun. injection Hrun as <-.
  rewrite (traceAllEdges_returns s s1 lines Htrace). reflexivity.
Qed.

Lemma myCallback_returns_same_cover (frame : Frame R) (s s' : Session R) :
  myCallback frame s = (Ok tt, s') -> cover s' = cover s.
Proof.
  unfold myCallback. rewrite run_bind. cbn [get]. rewrite run_bind. cbn [put].
  destruct (button_regenerate frame).
  - intros Hrun. apply generateVisualization_returns_same_cover in Hrun. exact Hrun.
  - intros Hrun. injection Hrun as <-. reflexivity.
Qed.

(** X6.  Whatever the user types, drags and presses, frame after frame,
    as long as the callbacks return the cover built before the GUI opened
    is what it was: the meshes, the geometry and the triangulation with
    every edge length.  Regenerating never changes what it draws from. *)
Theorem gui_frames_keep_cover (frames : list (Frame R)) :
  forall s s' : Session R,
  for_each frames myCallback s = (Ok tt, s') -> cover s' = cover s.
Proof.
  induction frames as [| frame frames IH]; intros s s' Hrun.
  - cbn in Hrun. injection Hrun as <-. reflexivity.
  - rewrite for_each_cons in Hrun.
    destruct (myCallback frame s) as [[[] | what |] s1] eqn:Hframe; try discriminate.
    rewrite (IH s1 s' Hrun). exact (myCallback_returns_same_cover frame s s1 Hframe).
Qed.

Lemma for_each_one {S X} (body : X -> Prog S unit) (x : X) (s : S) :
  for_each [x] body s = body x s.
Proof. rewrite for_each_cons. destruct (body x s) as [[[] | what |] s']; reflexivity. Qed.

Lemma myCallback_without_button (frame : Frame R) (s : Session R) :
  button_regenerate frame = false ->
  myCallback frame s
  = (Ok tt, mkSession (cover s) (default (bubbleScale s) (slider_bubbleScale frame))
              (default (subdivLevel s) (input_subdivLevel frame))
              (default (pointsPerTriEdge s) (input_pointsPerTriEdge frame)) (world s)).
Proof.
  intros Hbutton. unfold myCallback. rewrite run_bind. cbn [get].
  rewrite run_bind. cbn [put]. rewrite Hbutton. reflexivity.
Qed.

Lemma myCallback_after_update (first second : Frame R) (s : Session R) :
  myCallback second
    (mkSession (cover s) (default (bubbleScale s) (slider_bubbleScale first))
       (default (subdivLevel s) (input_subdivLevel first))
       (default (pointsPerTriEdge s) (input_pointsPerTriEdge first)) (world s))
  = myCallback (merge_frames first second) s.
Proof.
  unfold myCallback. rewrite !run_bind. cbn [get]. rewrite !run_bind. cbn [put].
  unfold merge_frames.
  cbn [cover bubbleScale subdivLevel pointsPerTriEdge world
       input_subdivLevel slider_bubbleScale input_pointsPerTriEdge button_regenerate].
  destruct (input_subdivLevel second), (slider_bubbleScale second),
           (input_pointsPerTriEdge second); reflexivity.
Qed.


End CallbackProperties.

(** ** What the matrix writer touches *)

Section WriterFrame.
Context {R T : Type} `{!IOStreams T}.

(* An observation of the world that does not depend on standard output
   or on the file of the given name is kept by the writer. *)
Lemma saveMatrix_keeps {X} (f : World R -> X) (filename : string) (matrix : SparseMatrix T) :
  (forall out err files calls text,
     f (mkWorld (out +:+ text) err files calls) = f (mkWorld out err files calls)) ->
  (forall out err files calls text,
     f (mkWorld out err (<[filename := text]> files) calls) = f (mkWorld out err files calls)) ->
  keeps f (saveMatrix filename matrix).
Proof.
  intros Hout Hfile [out err files calls]. unfold saveMatrix.
  rewrite run_bind. cbn [cout w_stdout w_stderr w_files w_polyscope].
  rewrite run_bind. unfold open at 1. cbn [w_files w_stdout w_stderr w_polyscope].
  destruct (opens_for_writing files filename); cbn [snd]; [| apply Hout].
  assert (Hloop : keeps f (for_each (seq 0 (length (outer matrix)))
                             (write_column (setprecision (mkOfstream filename 6) 16) matrix))).
  { apply keeps_for_each. intros k. unfold write_column.
    apply keeps_for_each. intros entry [out' err' files' calls']. apply Hfile. }
  rewrite Hloop, Hfile. apply Hout.
Qed.

Lemma saveMatrix_stdout (filename : string) (matrix : SparseMatrix T) (w : World R) :
  w_stdout (snd (saveMatrix filename matrix w))
  = w_stdout w +:+ "Writing sparse matrix to: " +:+ filename +:+ endl.
Proof.
  destruct w as [out err files calls]. unfold saveMatrix.
  rewrite run_bind. cbn [cout w_stdout w_stderr w_files w_polyscope].
  rewrite run_bind. unfold open at 1. cbn [w_files w_stdout w_stderr w_polyscope].
  destruct (opens_for_writing files filename); cbn [snd]; [| reflexivity].
  assert (Hloop : keeps w_stdout
                    (for_each (seq 0 (length (outer matrix)))
                       (write_column (R := R) (setprecision (mkOfstream filename 6) 16)
                          matrix))).
  { apply keeps_for_each. intros k. unfold write_column.
    apply keeps_for_each. intros entry [out' err' files' calls']. reflexivity. }
  rewrite Hloop. reflexivity.
Qed.

(** X8.  Whatever the matrix and whether or not the path opens, the
    writer adds its one-line notice to standard output, leaves standard
    error and the polyscope calls as they were, and touches no file other
    than the one it was given. *)
Theorem saveMatrix_touches_only_its_file
    (filename : string) (matrix : SparseMatrix T) (w : World R) :
  w_stdout (snd (saveMatrix filename matrix w))
    = w_stdout w +:+ "Writing sparse matrix to: " +:+ filename +:+ endl /\
  w_stderr (snd (saveMatrix filename matrix w)) = w_stderr w /\
  w_polyscope (snd (saveMatrix filename matrix w)) = w_polyscope w /\
  forall other : string, other <> filename ->
    w_files (snd (saveMatrix filename matrix w)) !! other = w_files w !! other.
Proof.
  split; [apply saveMatrix_stdout |].
  split; [apply (saveMatrix_keeps w_stderr); reflexivity |].
  split; [apply (saveMatrix_keeps w_polyscope); reflexivity |].
  intros other Hother.
  apply (saveMatrix_keeps (fun w' : World R => w_files w' !! other)); [reflexivity |].
  intros out err files calls text. cbn [w_files]. apply lookup_insert_ne. congruence.
Qed.

(* The writer, when the path opens and the indices are those of an int. *)
Lemma saveMatrix_returns (filename : string) (matrix : SparseMatrix T) (w : World R) :
  opens_for_writing (w_files w) filename = true ->
  Z.of_nat (length (outer matrix)) <= INT_MAX ->
  (forall (row col : Z) (val : T),
     (row, col, val) ∈ stored_entries matrix -> 0 <= row <= INT_MAX) ->
  saveMatrix filename matrix w = (Ok tt, saved_world w filename matrix).
Proof.
  intros Hopen Hcols Hrows.
  unfold saveMatrix. rewrite run_bind. cbn [cout].
  rewrite run_bind. unfold open at 1. cbn [w_files]. rewrite Hopen.
  change (mkWorld ?out ?err (<[filename := EmptyString]> ?files) ?calls)
    with (holding (mkWorld out err files calls)
            (os_path (setprecision (mkOfstream filename 6) 16)) EmptyString).
  rewrite write_columns_holding.
  rewrite written_lines_are_entry_texts.
  - reflexivity.
  - intros k Hk. apply list_elem_of_In, in_seq in Hk. lia.
  - intros k entry Hk Hentry. apply list_elem_of_In, in_seq in Hk.
    apply (Hrows (fst entry) (Z.of_nat k) (snd entry)).
    apply stored_entry_of_column; [lia | exact Hentry].
Qed.

End WriterFrame.

(** ** Whole runs *)

Section WholeRuns.
Context {R : Type} `{Scalar R} `{MeshTypes} `{!GeometryCentral R} `{!BubbleOffsetLib R}.
Context `{!IOStreams R} `{!ArgsLibrary R}.

Lemma cout_keeps_polyscope (text : string) : keeps (w_polyscope (R := R)) (cout text).
Proof. intros w. reflexivity. Qed.

Lemma cout_keeps_files (text : string) : keeps (w_files (R := R)) (cout text).
Proof. intros w. reflexivity. Qed.

(** X9.  Without --gui (and likewise when the arguments do not parse or
    help is asked for) a run makes no call to polyscope, whatever the
    mesh, the other flags and the outcome. *)
Theorem batch_run_makes_no_polyscope_call
    (argv : list string) (frames : list (Frame R)) (w : World R) :
  (forall a : ParsedArgs R, ParseCLI argv = Parsed a -> gui a = false) ->
  w_polyscope (snd (main argv frames w)) = w_polyscope w.
Proof.
  intros Hgui. revert w. change (keeps (w_polyscope (R := R)) (main argv frames)).
  unfold main. destruct (ParseCLI argv) as [a | | what] eqn:Hparse.
  - specialize (Hgui a eq_refl). destruct (inputFilename a) as [filename |].
    + cbv zeta. rewrite Hgui.
      apply keeps_bind; [apply keeps_get | intros w0].
      apply keeps_bind; [apply keeps_lift | intros loaded].
      apply keeps_bind; [apply keeps_lift | intros [mesh geometry]].
      apply keeps_bind; [apply cout_keeps_polyscope | intros _].
      apply keeps_bind; [apply keeps_lift | intros [L M]].
      apply keeps_bind; [apply cout_keeps_polyscope | intros _].
      apply keeps_bind;
        [apply keeps_if; [apply saveMatrix_keeps; reflexivity | apply keeps_ret] | intros _].
      apply keeps_bind;
        [apply keeps_if; [apply saveMatrix_keeps; reflexivity | apply keeps_ret] | intros _].
      apply keeps_bind; [apply keeps_ret | intros _]. apply keeps_ret.
    + intros w. reflexivity.
  - intros w. reflexivity.
  - intros w. reflexivity.
Qed.

(** X10.  Without --writeLaplacian, --writeMass and --gui (and likewise
    when the arguments do not parse or help is asked for) a run creates,
    empties and writes no file, whatever the mesh, the mollification
    factor, the prefix and the outcome: the driver opens a file for
    writing under the two write flags only. *)
Theorem batch_run_without_write_flags_writes_no_file
    (argv : list string) (frames : list (Frame R)) (w : World R) :
  (forall a : ParsedArgs R,
     ParseCLI argv = Parsed a ->
     writeLaplacian a = false /\ writeMass a = false /\ gui a = false) ->
  w_files (snd (main argv frames w)) = w_files w.
Proof.
  intros Hflags. revert w. change (keeps (w_files (R := R)) (main argv frames)).
  unfold main. destruct (ParseCLI argv) as [a | | what] eqn:Hparse.
  - destruct (Hflags a eq_refl) as (HL & HM & Hgui).
    destruct (inputFilename a) as [filename |].
    + cbv zeta. rewrite HL, HM, Hgui.
      apply keeps_bind; [apply keeps_get | intros w0].
      apply keeps_bind; [apply keeps_lift | intros loaded].
      apply keeps_bind; [apply keeps_lift | intros [mesh geometry]].
      apply keeps_bind; [apply cout_keeps_files | intros _].
      apply keeps_bind; [apply keeps_lift | intros [L M]].
      apply keeps_bind; [apply cout_keeps_files | intros _].
      apply keeps_bind; [apply keeps_ret | intros _].
      apply keeps_bind; [apply keeps_ret | intros _].
      apply keeps_bind; [apply keeps_ret | intros _]. apply keeps_ret.
    + intros w. reflexivity.
  - intros w. reflexivity.
  - intros w. reflexivity.
Qed.

(* The world after the two progress lines of main. *)
Lemma main_until_matrices
    (argv : list string) (frames : list (Frame R)) (w : World R) (a : ParsedArgs R)
    (meshFile : string) (loaded : SimplePolygonMesh R) (mesh : SurfaceMesh)
    (geometry : VertexPositionGeometry R) (L M : SparseMatrix R) :
  ParseCLI argv = Parsed a ->
  inputFilename a = Some meshFile ->
  readSimplePolygonMesh (w_files w) meshFile = Ok loaded ->
  makeGeneralHalfedgeAndGeometry
    (polygons (triangulate (stripUnusedVertices (stripFacesWithDuplicateVertices loaded))))
    (vertexCoordinates
       (triangulate (stripUnusedVertices (stripFacesWithDuplicateVertices loaded))))
    = Ok (mesh, geometry) ->
  buildTuftedLaplacian mesh geometry (configured_mollifyFactor a) = Ok (L, M) ->
  main argv frames w
  = ((if writeLaplacian a
      then saveMatrix (default "tufted_" (outputPrefixArg a) +:+ "laplacian.spmat") L
      else mret tt) ≫= fun _ =>
     (if writeMass a
      then saveMatrix (default "tufted_" (outputPrefixArg a) +:+ "lumped_mass.spmat") M
      else mret tt) ≫= fun _ =>
     (if gui a
      then visualize mesh geometry (configured_mollifyFactor a)
             (triangulate (stripUnusedVertices (stripFacesWithDuplicateVertices loaded)))
             frames
      else mret tt) ≫= fun _ => mret EXIT_SUCCESS)
      (mkWorld ((w_stdout w +:+ "Building tufted Laplacian..." +:+ endl)
                +:+ "  ...done!" +:+ endl)
         (w_stderr w) (w_files w) (w_polyscope w)).
Proof.
  intros Hparse Hfile Hload Hmake Hbuild.
  unfold main. rewrite Hparse, Hfile. cbv zeta.
  rewrite run_bind. cbn [get].
  rewrite run_bind. unfold lift at 1. rewrite Hload.
  rewrite run_bind. unfold lift at 1. rewrite Hmake.
  rewrite run_bind. cbn [cout].
  rewrite run_bind. unfold lift at 1. rewrite Hbuild.
  rewrite run_bind. cbn [cout w_stdout w_stderr w_files w_polyscope].
  reflexivity.
Qed.

(** X11.  With both write flags and without the GUI, when the mesh loads,
    the Laplacian is built and both paths open, the run returns 0; the
    file named by the prefix followed by laplacian.spmat holds the
    triplets of the Laplacian, the file named by the prefix followed by
    lumped_mass.spmat those of the mass matrix, written in that order;
    the prefix is tufted_ unless given.  Standard output holds the two
    progress lines and the two notices of the writer. *)
Theorem batch_run_writes_both_matrices
    (argv : list string) (frames : list (Frame R)) (w : World R) (a : ParsedArgs R)
    (meshFile : string) (loaded : SimplePolygonMesh R) (mesh : SurfaceMesh)
    (geometry : VertexPositionGeometry R) (L M : SparseMatrix R) :
  ParseCLI argv = Parsed a ->
  inputFilename a = Some meshFile ->
  readSimplePolygonMesh (w_files w) meshFile = Ok loaded ->
  makeGeneralHalfedgeAndGeometry
    (polygons (triangulate (stripUnusedVertices (stripFacesWithDuplicateVertices loaded))))
    (vertexCoordinates
       (triangulate (stripUnusedVertices (stripFacesWithDuplicateVertices loaded))))
    = Ok (mesh, geometry) ->
  buildTuftedLaplacian mesh geometry (configured_mollifyFactor a) = Ok (L, M) ->
  writeLaplacian a = true -> writeMass a = true -> gui a = false ->
  opens_for_writing (w_files w) (default "tufted_" (outputPrefixArg a) +:+ "laplacian.spmat")
    = true ->
  opens_for_writing
    (<[default "tufted_" (outputPrefixArg a) +:+ "laplacian.spmat"
       := concat_text (map triplet_text (stored_entries L))]> (w_files w))
    (default "tufted_" (outputPrefixArg a) +:+ "lumped_mass.spmat") = true ->
  Z.of_nat (length (outer L)) <= INT_MAX ->
  (forall row col val, (row, col, val) ∈ stored_entries L -> 0 <= row <= INT_MAX) ->
  Z.of_nat (length (outer M)) <= INT_MAX ->
  (forall row col val, (row, col, val) ∈ stored_entries M -> 0 <= row <= INT_MAX) ->
  main argv frames w
  = (Ok EXIT_SUCCESS,
     mkWorld
       ((((w_stdout w +:+ "Building tufted Laplacian..." +:+ endl) +:+ "  ...done!" +:+ endl)
         +:+ "Writing sparse matrix to: "
         +:+ (default "tufted_" (outputPrefixArg a) +:+ "laplacian.spmat") +:+ endl)
        +:+ "Writing sparse matrix to: "
        +:+ (default "tufted_" (outputPrefixArg a) +:+ "lumped_mass.spmat") +:+ endl)
       (w_stderr w)
       (<[default "tufted_" (outputPrefixArg a) +:+ "lumped_mass.spmat"
          := concat_text (map triplet_text (stored_entries M))]>
          (<[default "tufted_" (outputPrefixArg a) +:+ "laplacian.spmat"
             := concat_text (map triplet_text (stored_entries L))]> (w_files w)))
       (w_polyscope w)).
Proof.
  intros Hparse Hfile Hload Hmake Hbuild HwL HwM Hgui HopenL HopenM HcolsL HrowsL HcolsM HrowsM.
  rewrite (main_until_matrices argv frames w a meshFile loaded mesh geometry L M
             Hparse Hfile Hload Hmake Hbuild).
  rewrite HwL, HwM, Hgui.
  rewrite run_bind, saveMatrix_returns by assumption.
  rewrite run_bind, saveMatrix_returns by assumption.
  reflexivity.
Qed.

(** X12.  The two files are written one after the other, each as a whole:
    when the Laplacian's path opens and the mass matrix's does not, the
    run ends with the exception of the second file, and the first file is
    there with all the triplets of the Laplacian. *)
Theorem laplacian_file_survives_mass_failure
    (argv : list string) (frames : list (Frame R)) (w : World R) (a : ParsedArgs R)
    (meshFile : string) (loaded : SimplePolygonMesh R) (mesh : SurfaceMesh)
    (geometry : VertexPositionGeometry R) (L M : SparseMatrix R) :
  ParseCLI argv = Parsed a ->
  inputFilename a = Some meshFile ->
  readSimplePolygonMesh (w_files w) meshFile = Ok loaded ->
  makeGeneralHalfedgeAndGeometry
    (polygons (triangulate (stripUnusedVertices (stripFacesWithDuplicateVertices loaded))))
    (vertexCoordinates
       (triangulate (stripUnusedVertices (stripFacesWithDuplicateVertices loaded))))
    = Ok (mesh, geometry) ->
  buildTuftedLaplacian mesh geometry (configured_mollifyFactor a) = Ok (L, M) ->
  writeLaplacian a = true -> writeMass a = true ->
  opens_for_writing (w_files w) (default "tufted_" (outputPrefixArg a) +:+ "laplacian.spmat")
    = true ->
  opens_for_writing
    (<[default "tufted_" (outputPrefixArg a) +:+ "laplacian.spmat"
       := concat_text (map triplet_text (stored_entries L))]> (w_files w))
    (default "tufted_" (outputPrefixArg a) +:+ "lumped_mass.spmat") = false ->
  Z.of_nat (length (outer L)) <= INT_MAX ->
  (forall row col val, (row, col, val) ∈ stored_entries L -> 0 <= row <= INT_MAX) ->
  exists w' : World R,
    main argv frames w
    = (Throw ("failed to open output file "
              +:+ default "tufted_" (outputPrefixArg a) +:+ "lumped_mass.spmat"), w') /\
    w_files w'
    = <[default "tufted_" (outputPrefixArg a) +:+ "laplacian.spmat"
        := concat_text (map triplet_text (stored_entries L))]> (w_files w) /\
    w_polyscope w' = w_polyscope w.
Proof.
  intros Hparse Hfile Hload Hmake Hbuild HwL HwM HopenL HopenM HcolsL HrowsL.
  rewrite (main_until_matrices argv frames w a meshFile loaded mesh geometry L M
             Hparse Hfile Hload Hmake Hbuild).
  rewrite HwL, HwM.
  rewrite run_bind, saveMatrix_returns by assumption.
  rewrite run_bind, saveMatrix_throws by assumption.
  eexists. split; [reflexivity |]. split; reflexivity.
Qed.

End WholeRuns.

(** ** Separation of a mesh that needs none *)

Section NothingToSeparate.
Context {R : Type} `{Scalar R} `{MeshTypes} `{!GeometryCentral R}.

(** X13.  When the separation adds no vertex (every vertex is reported as
    its own origin), the "Split the vertices" step returns the geometry
    with every position as it was. *)
Theorem split_without_new_vertices_keeps_positions
    (mesh mesh' : SurfaceMesh) (geom : VertexPositionGeometry R) :
  separateNonmanifoldVertices mesh = (mesh', seq 0 (nVertices mesh')) ->
  length (inputVertexPositions geom) = nVertices mesh' ->
  splitTheVertices mesh geom
  = Ok (mesh', seq 0 (nVertices mesh'),
        mkVertexPositionGeometry mesh' (inputVertexPositions geom)).
Proof.
  intros Hsep Hlen.
  pose (n := nVertices mesh').
  assert (Horig : forall v orig : Vertex, seq 0 n !! v = Some orig ->
             (orig < length (inputVertexPositions geom))%nat /\ seq 0 n !! orig = Some orig).
  { intros v orig Hv. pose proof (lookup_lt_Some _ _ _ Hv) as Hlt.
    rewrite length_seq in Hlt. rewrite lookup_seq_lt in Hv by exact Hlt.
    injection Hv as <-. split; [rewrite Hlen; exact Hlt | exact (lookup_seq_lt 0 n v Hlt)]. }
  assert (Hstart : copied_below (seq 0 n) (inputVertexPositions geom)
                     (inputVertexPositions geom) 0 (inputVertexPositions geom)).
  { split; [rewrite length_seq; exact Hlen |]. split; [intros v orig Hv; lia | reflexivity]. }
  destruct (copyOriginalPositions_loop (seq 0 n) (inputVertexPositions geom)
              (inputVertexPositions geom) Horig (fun v _ _ => eq_refl)
              ltac:(rewrite length_seq; exact Hlen)
              (length (seq 0 n)) 0%nat (inputVertexPositions geom) eq_refl Hstart)
    as (positions & Hloop & Hlen' & Hcopied & _).
  rewrite length_seq in Hloop, Hlen', Hcopied.
  assert (Hsame : positions = inputVertexPositions geom).
  { apply list_eq. intros i. destruct (decide (i < n)%nat) as [Hi | Hi].
    - apply (Hcopied i i Hi). exact (lookup_seq_lt 0 n i Hi).
    - rewrite !lookup_ge_None_2 by lia. reflexivity. }
  unfold splitTheVertices. rewrite Hsep. fold n.
  replace (resize n (mkVector3 lit_0 lit_0 lit_0) (inputVertexPositions geom))
    with (inputVertexPositions geom)
    by (unfold n; rewrite <- Hlen; symmetry; apply resize_all).
  rewrite Hloop, Hsame. reflexivity.
Qed.

End NothingToSeparate.

(** ** The geometry of the interpolated points, in exact arithmetic *)

Lemma blend_nonnegative (t a b : Q) :
  (0 <= t -> t <= 1 -> 0 <= a -> 0 <= b -> 0 <= (1 - t) * a + t * b)%Q.
Proof.
  intros Ht0 Ht1 Ha Hb.
  assert (H1 : (0 <= (1 - t) * a)%Q) by (apply Qmult_le_0_compat; [lra | exact Ha]).
  assert (H2 : (0 <= t * b)%Q) by (apply Qmult_le_0_compat; assumption).
  lra.
Qed.

(** X14.  Between two points of a face whose barycentric coordinates are
    not negative, the coordinates of every interpolated point are not
    negative either: with coordinates that sum to 1 the interpolated
    points stay in the closed face. *)
Theorem interpolated_points_stay_in_face
    (N : Z) (sharedF : Face) (pAF pBF : SurfacePoint Q) (i : Z) :
  N < INT_MAX -> 0 <= i < N ->
  (0 <= x (faceCoords pAF) /\ 0 <= y (faceCoords pAF) /\ 0 <= z (faceCoords pAF))%Q ->
  (0 <= x (faceCoords pBF) /\ 0 <= y (faceCoords pBF) /\ 0 <= z (faceCoords pBF))%Q ->
  (0 <= x (faceCoords (pInterp N sharedF pAF pBF i)) /\
   0 <= y (faceCoords (pInterp N sharedF pAF pBF i)) /\
   0 <= z (faceCoords (pInterp N sharedF pAF pBF i)))%Q.
Proof.
  intros HN Hi (HAx & HAy & HAz) (HBx & HBy & HBz).
  destruct (tInterp_inside N i Hi HN) as [Ht0 Ht1].
  unfold pInterp. cbn [faceCoords]. unfold baryInterp, vadd, scale.
  cbn [x y z radd rsub rmul lit_1 exact_Scalar].
  split; [| split]; apply blend_nonnegative;
    first [apply Qlt_le_weak; assumption | assumption].
Qed.

(** X15.  The interpolation parameters are symmetric about 1/2, the i-th
    and the (N-1-i)-th adding up to 1: interpolating from B to A gives,
    in reverse order, the points of interpolating from A to B. *)
Theorem interpolation_is_symmetric (N i : Z) (A B : Vector3 Q) :
  N < INT_MAX -> 0 <= i < N ->
  (tInterp (R := Q) N i + tInterp (R := Q) N (N - 1 - i) == 1)%Q /\
  (x (baryInterp (tInterp (R := Q) N (N - 1 - i)) B A)
     == x (baryInterp (tInterp (R := Q) N i) A B))%Q /\
  (y (baryInterp (tInterp (R := Q) N (N - 1 - i)) B A)
     == y (baryInterp (tInterp (R := Q) N i) A B))%Q /\
  (z (baryInterp (tInterp (R := Q) N (N - 1 - i)) B A)
     == z (baryInterp (tInterp (R := Q) N i) A B))%Q.
Proof.
  intros HN Hi.
  assert (Hsum : (tInterp (R := Q) N i + tInterp (R := Q) N (N - 1 - i) == 1)%Q).
  { rewrite (tInterp_exact N i) by lia. rewrite (tInterp_exact N (N - 1 - i)) by lia.
    replace (N - 1 - i + 1) with (N - i) by lia.
    assert (HN0 : ~ (inject_Z (N + 1) == 0)%Q).
    { intros E. assert (Hlt : (0 < inject_Z (N + 1))%Q) by (rewrite <- (Zlt_Qlt 0); lia).
      rewrite E in Hlt. exact (Qlt_irrefl 0 Hlt). }
    replace (N + 1) with ((i + 1) + (N - i)) in * by lia.
    rewrite (inject_Z_plus (i + 1) (N - i)) in *. field. exact HN0. }
  split; [exact Hsum |].
  assert (Hother : (tInterp (R := Q) N (N - 1 - i) == 1 - tInterp (R := Q) N i)%Q) by lra.
  destruct A as [ax ay az], B as [bx by' bz]. unfold baryInterp, vadd, scale.
  cbn [x y z radd rsub rmul lit_1 exact_Scalar].
  split; [| split]; rewrite Hother; ring.
Qed.

(** ** The further properties on the triangle *)

Section OnTheTriangleAgain.
#[local] Existing Instance Triangle.meshTypes.
#[local] Existing Instance Triangle.geometryCentral.
#[local] Existing Instance Triangle.bubbleOffsetLib.
#[local] Existing Instance Triangle.argsLibrary.

Lemma traceShortened_throw_leaves_length_shortened_witness :
  intrinsicEdgeLengths (Triangle.unit_triangulation (R := float)) !! 0%nat = Some lit_1 /\
  traceShortened (GeometryCentral0 := TriangleVariants.failing_tracer) 0%nat
    (mkTracing (Triangle.unit_triangulation (R := float)) [])
  = (Throw "edgeIsOriginal cache is out of date",
     mkTracing (with_length Triangle.unit_triangulation 0%nat (rmul lit_1 lit_999)) []).
Proof.
  split; [reflexivity |].
  exact (proj1 (traceShortened_throw_leaves_length_shortened
                  (GeometryCentral0 := TriangleVariants.failing_tracer)
                  (Triangle.unit_triangulation (R := float)) [] 0%nat lit_1
                  "edgeIsOriginal cache is out of date" eq_refl eq_refl)).
Defined.

Lemma traceEdge_empty_trace_is_undefined_witness :
  traceEdge (GeometryCentral0 := TriangleVariants.empty_tracer)
    (Triangle.flat_geometry (R := float)) lit_0 1 0%nat
    (mkTracing Triangle.unit_triangulation [])
  = (Undefined, mkTracing Triangle.unit_triangulation [[]]).
Proof.
  exact (traceEdge_empty_trace_is_undefined
           (GeometryCentral0 := TriangleVariants.empty_tracer)
           (Triangle.flat_geometry (R := float)) lit_0 1
           Triangle.unit_triangulation [] 0%nat lit_1 eq_refl eq_refl).
Defined.

Lemma shortened_trace_not_empty :
  [VertexPoint 0%nat; FacePoint 0%nat (Triangle.between 0 1 (rmul lit_1 lit_999))]
  <> ([] : list (SurfacePoint float)).
Proof. discriminate. Qed.

Lemma traced_line_without_interpolation_witness :
  traceEdge (Triangle.flat_geometry (R := float)) lit_0 0 0%nat
    (mkTracing Triangle.unit_triangulation [])
  = (Ok tt,
     mkTracing Triangle.unit_triangulation
       [map (queryPoint Triangle.flat_geometry lit_0)
          [VertexPoint 0%nat;
           FacePoint 0%nat (Triangle.between 0 1 (rmul lit_1 lit_999))]]).
Proof.
  exact (traced_line_without_interpolation (Triangle.flat_geometry (R := float)) lit_0 0
           Triangle.unit_triangulation [] 0%nat lit_1 _ ltac:(lia) eq_refl
           shortened_trace_of_edge_0 shortened_trace_not_empty triangle_pairs_in_face).
Defined.

Lemma triangle_session_regenerates :
  generateVisualization (Triangle.triangle_session (R := float))
  = (Ok tt, snd (generateVisualization (Triangle.triangle_session (R := float)))).
Proof. vm_compute. reflexivity. Qed.

Lemma generateVisualization_one_line_per_edge_witness :
  exists lines : list (list (Vector3 float)),
    last (w_polyscope
            (world (snd (generateVisualization (Triangle.triangle_session (R := float))))))
      = Some (AddSurfaceGraphQuantity "bubble tufted cover" "intrinsic edges" lines true) /\
    length lines = 3%nat.
Proof.
  destruct (generateVisualization_one_line_per_edge _ _ triangle_session_regenerates)
    as (lines & Hlast & Hlen & _).
  exists lines. split; [exact Hlast | exact Hlen].
Defined.

Lemma failing_tracer_run_fails :
  fst (generateVisualization (GeometryCentral0 := TriangleVariants.failing_tracer)
         (Triangle.triangle_session (R := float))) <> Ok tt.
Proof. vm_compute. discriminate. Qed.

Lemma generateVisualization_failure_registers_only_witness :
  length (w_polyscope
            (world (snd (generateVisualization
                           (GeometryCentral0 := TriangleVariants.failing_tracer)
                           (Triangle.triangle_session (R := float)))))) = 1%nat.
Proof.
  rewrite (generateVisualization_failure_registers_only
             (GeometryCentral0 := TriangleVariants.failing_tracer)
             (Triangle.triangle_session (R := float)) failing_tracer_run_fails).
  reflexivity.
Defined.

Lemma two_frames_return :
  for_each [mkFrame None None (Some 2) true; mkFrame (Some 1) None None false]
    myCallback (Triangle.triangle_session (R := float))
  = (Ok tt,
     snd (for_each [mkFrame None None (Some 2) true; mkFrame (Some 1) None None false]
            myCallback (Triangle.triangle_session (R := float)))).
Proof. vm_compute. reflexivity. Qed.

Lemma gui_frames_keep_cover_witness :
  cover (snd (for_each [mkFrame None None (Some 2) true; mkFrame (Some 1) None None false]
                myCallback (Triangle.triangle_session (R := float))))
  = Triangle.triangle_cover.
Proof. exact (gui_frames_keep_cover _ _ _ two_frames_return). Defined.


Lemma batch_command_line (a : ParsedArgs float) :
  ParseCLI ["tufted-idt"; "triangle.obj"; "--writeLaplacian"] = Parsed a -> gui a = false.
Proof. intros Ha. vm_compute in Ha. injection Ha as <-. reflexivity. Qed.

Lemma batch_run_makes_no_polyscope_call_witness :
  w_polyscope
    (snd (main (R := float) (IOStreams0 := Triangle.ioStreams_scalar)
            ["tufted-idt"; "triangle.obj"; "--writeLaplacian"] []
            TriangleVariants.mesh_world)) = [].
Proof.
  exact (batch_run_makes_no_polyscope_call (R := float)
           (IOStreams0 := Triangle.ioStreams_scalar)
           ["tufted-idt"; "triangle.obj"; "--writeLaplacian"] []
           TriangleVariants.mesh_world batch_command_line).
Defined.

Lemma plain_command_line (a : ParsedArgs float) :
  ParseCLI ["tufted-idt"; "triangle.obj"] = Parsed a ->
  writeLaplacian a = false /\ writeMass a = false /\ gui a = false.
Proof. intros Ha. vm_compute in Ha. injection Ha as <-. repeat split. Qed.

Lemma batch_run_without_write_flags_writes_no_file_witness :
  w_files
    (snd (main (R := float) (IOStreams0 := Triangle.ioStreams_scalar)
            ["tufted-idt"; "triangle.obj"] [] TriangleVariants.mesh_world))
  = w_files (TriangleVariants.mesh_world (R := float)).
Proof.
  exact (batch_run_without_write_flags_writes_no_file (R := float)
           (IOStreams0 := Triangle.ioStreams_scalar)
           ["tufted-idt"; "triangle.obj"] [] TriangleVariants.mesh_world
           plain_command_line).
Defined.

(* The matrices the triangle's Laplacian builder returns. *)
Lemma triangle_laplacian_rows (row col : Z) (val : float) :
  (row, col, val) ∈ stored_entries
    (mkSparseMatrix [[(0, lit_1); (2, lit_1)]; []; [(1, lit_1)]]) ->
  0 <= row <= INT_MAX.
Proof.
  change (stored_entries (mkSparseMatrix [[(0, lit_1); (2, lit_1)]; []; [(1, lit_1)]]))
    with [(0, 0, lit_1 (R := float)); (2, 0, lit_1); (1, 2, lit_1)].
  rewrite !elem_of_cons, elem_of_nil. unfold INT_MAX.
  intros [E | [E | [E | []]]]; injection E as -> _ _; lia.
Qed.

Lemma triangle_mass_rows (row col : Z) (val : float) :
  (row, col, val) ∈ stored_entries
    (mkSparseMatrix [[(0, lit_1)]; [(1, lit_1)]; [(2, lit_1)]]) ->
  0 <= row <= INT_MAX.
Proof.
  change (stored_entries (mkSparseMatrix [[(0, lit_1)]; [(1, lit_1)]; [(2, lit_1)]]))
    with [(0, 0, lit_1 (R := float)); (1, 1, lit_1); (2, 2, lit_1)].
  rewrite !elem_of_cons, elem_of_nil. unfold INT_MAX.
  intros [E | [E | [E | []]]]; injection E as -> _ _; lia.
Qed.

Local Abbreviation write_argv :=
  ["tufted-idt"; "triangle.obj"; "--writeLaplacian"; "--writeMass"].
Local Abbreviation write_args :=
  (mkParsedArgs (R := float) (Some "triangle.obj") None false None true true).
Local Abbreviation triangle_soup :=
  (mkSimplePolygonMesh (R := float) [[0; 1; 2]%nat]
     [mkVector3 lit_0 lit_0 lit_0; mkVector3 lit_1 lit_0 lit_0; mkVector3 lit_0 lit_1 lit_0]).
Local Abbreviation triangle_L :=
  (mkSparseMatrix (T := float) [[(0, lit_1); (2, lit_1)]; []; [(1, lit_1)]]).
Local Abbreviation triangle_M :=
  (mkSparseMatrix (T := float) [[(0, lit_1)]; [(1, lit_1)]; [(2, lit_1)]]).

Lemma write_command_line : ParseCLI (R := float) write_argv = Parsed write_args.
Proof. vm_compute. reflexivity. Qed.

Lemma mesh_world_loads :
  readSimplePolygonMesh (R := float)
    (w_files (TriangleVariants.mesh_world (R := float))) "triangle.obj"
  = Ok triangle_soup.
Proof. vm_compute. reflexivity. Qed.

Lemma triangle_soup_makes_mesh :
  makeGeneralHalfedgeAndGeometry (R := float)
    (polygons (triangulate (stripUnusedVertices (stripFacesWithDuplicateVertices
                                                   triangle_soup))))
    (vertexCoordinates (triangulate (stripUnusedVertices (stripFacesWithDuplicateVertices
                                                            triangle_soup))))
  = Ok (Triangle.triangle_mesh, Triangle.flat_geometry).
Proof. reflexivity. Qed.

Lemma triangle_laplacian_builds :
  buildTuftedLaplacian (R := float) Triangle.triangle_mesh Triangle.flat_geometry
    (configured_mollifyFactor write_args)
  = Ok (triangle_L, triangle_M).
Proof. reflexivity. Qed.

Lemma laplacian_path_opens :
  opens_for_writing (IOStreams := Triangle.ioStreams_scalar (R := float))
    (w_files (TriangleVariants.mesh_world (R := float)))
    (default "tufted_" (outputPrefixArg write_args) +:+ "laplacian.spmat") = true.
Proof. vm_compute. reflexivity. Qed.

Lemma mass_path_opens :
  opens_for_writing (IOStreams := Triangle.ioStreams_scalar (R := float))
    (<[default "tufted_" (outputPrefixArg write_args) +:+ "laplacian.spmat"
       := concat_text (map (triplet_text (IOStreams0 := Triangle.ioStreams_scalar))
                         (stored_entries triangle_L))]>
       (w_files (TriangleVariants.mesh_world (R := float))))
    (default "tufted_" (outputPrefixArg write_args) +:+ "lumped_mass.spmat") = true.
Proof. vm_compute. reflexivity. Qed.

Lemma batch_run_writes_both_matrices_witness :
  fst (main (R := float) (IOStreams0 := Triangle.ioStreams_scalar) write_argv []
         TriangleVariants.mesh_world) = Ok 0 /\
  w_files
    (snd (main (R := float) (IOStreams0 := Triangle.ioStreams_scalar) write_argv []
            TriangleVariants.mesh_world)) !! "tufted_laplacian.spmat"
  = Some ("1 1 1" +:+ endl +:+ "3 1 1" +:+ endl +:+ "2 3 1" +:+ endl).
Proof.
  rewrite (batch_run_writes_both_matrices (R := float)
             (IOStreams0 := Triangle.ioStreams_scalar) write_argv []
             TriangleVariants.mesh_world write_args "triangle.obj" triangle_soup
             Triangle.triangle_mesh Triangle.flat_geometry triangle_L triangle_M
             write_command_line eq_refl mesh_world_loads triangle_soup_makes_mesh
             triangle_laplacian_builds eq_refl eq_refl eq_refl
             laplacian_path_opens mass_path_opens
             ltac:(unfold INT_MAX; cbn; lia) triangle_laplacian_rows
             ltac:(unfold INT_MAX; cbn; lia) triangle_mass_rows).
  split; [reflexivity | vm_compute; reflexivity].
Defined.

Lemma laplacian_path_opens_when_room :
  opens_for_writing (IOStreams := TriangleVariants.ioStreams_full (R := float))
    (w_files (TriangleVariants.mesh_world (R := float)))
    (default "tufted_" (outputPrefixArg write_args) +:+ "laplacian.spmat") = true.
Proof. vm_compute. reflexivity. Qed.

Lemma mass_path_does_not_open_when_full :
  opens_for_writing (IOStreams := TriangleVariants.ioStreams_full (R := float))
    (<[default "tufted_" (outputPrefixArg write_args) +:+ "laplacian.spmat"
       := concat_text (map (triplet_text (IOStreams0 := TriangleVariants.ioStreams_full))
                         (stored_entries triangle_L))]>
       (w_files (TriangleVariants.mesh_world (R := float))))
    (default "tufted_" (outputPrefixArg write_args) +:+ "lumped_mass.spmat") = false.
Proof. vm_compute. reflexivity. Qed.

Lemma laplacian_file_survives_mass_failure_witness :
  exists w' : World float,
    main (R := float) (IOStreams0 := TriangleVariants.ioStreams_full) write_argv []
      TriangleVariants.mesh_world
    = (Throw "failed to open output file tufted_lumped_mass.spmat", w') /\
    w_files w' !! "tufted_laplacian.spmat"
    = Some ("1 1 1" +:+ endl +:+ "3 1 1" +:+ endl +:+ "2 3 1" +:+ endl).
Proof.
  destruct (laplacian_file_survives_mass_failure (R := float)
              (IOStreams0 := TriangleVariants.ioStreams_full) write_argv []
              TriangleVariants.mesh_world write_args "triangle.obj" triangle_soup
              Triangle.triangle_mesh Triangle.flat_geometry triangle_L triangle_M
              write_command_line eq_refl mesh_world_loads triangle_soup_makes_mesh
              triangle_laplacian_builds eq_refl eq_refl
              laplacian_path_opens_when_room mass_path_does_not_open_when_full
              ltac:(unfold INT_MAX; cbn; lia) triangle_laplacian_rows)
    as (w' & Hrun & Hfiles & _).
  exists w'. split; [exact Hrun |]. rewrite Hfiles. vm_compute. reflexivity.
Defined.

Lemma triangle_needs_no_separation :
  separateNonmanifoldVertices (R := float) Triangle.triangle_mesh
  = (Triangle.triangle_mesh, seq 0 (nVertices (R := float) Triangle.triangle_mesh)).
Proof. reflexivity. Qed.

Lemma split_without_new_vertices_keeps_positions_witness :
  splitTheVertices (R := float) Triangle.triangle_mesh Triangle.flat_geometry
  = Ok (Triangle.triangle_mesh, [0; 1; 2]%nat, Triangle.flat_geometry).
Proof.
  exact (split_without_new_vertices_keeps_positions (R := float)
           Triangle.triangle_mesh Triangle.triangle_mesh Triangle.flat_geometry
           triangle_needs_no_separation eq_refl).
Defined.

Lemma interpolated_points_stay_in_face_witness :
  (0 <= x (faceCoords (pInterp 3 0%nat (FacePoint 0%nat (mkVector3 1%Q 0%Q 0%Q))
                         (FacePoint 0%nat (mkVector3 0%Q 1%Q 0%Q)) 1)))%Q.
Proof.
  exact (proj1 (interpolated_points_stay_in_face 3 0%nat
                  (FacePoint 0%nat (mkVector3 1%Q 0%Q 0%Q))
                  (FacePoint 0%nat (mkVector3 0%Q 1%Q 0%Q)) 1
                  ltac:(reflexivity) ltac:(lia)
                  ltac:(cbn; repeat split; discriminate)
                  ltac:(cbn; repeat split; discriminate))).
Defined.

Lemma interpolation_is_symmetric_witness :
  (tInterp (R := Q) 3 0 + tInterp (R := Q) 3 (3 - 1 - 0) == 1)%Q.
Proof.
  exact (proj1 (interpolation_is_symmetric 3 0 (mkVector3 1%Q 0%Q 0%Q)
                  (mkVector3 0%Q 1%Q 0%Q) ltac:(reflexivity) ltac:(lia))).
Defined.

End OnTheTriangleAgain.

(** ** What tracing an edge never touches, and saving twice *)

Section TracingFrame.
Context {R : Type} `{Scalar R} `{MeshTypes} `{!GeometryCentral R} `{!BubbleOffsetLib R}.

Lemma pushLinePoint_keeps_triangulation geom s (p : SurfacePoint R) :
  keeps tr_signpostTri (pushLinePoint geom s p).
Proof.
  intros st. unfold pushLinePoint. rewrite run_bind. cbn [get].
  rewrite run_bind. unfold lift at 1.
  destruct (back_push_back (tr_lines st) (queryPoint geom s p)); reflexivity.
Qed.

Lemma pushSegment_keeps_triangulation geom s n mesh points (i : nat) :
  keeps tr_signpostTri (pushSegment geom s n mesh points i).
Proof.
  unfold pushSegment.
  apply keeps_bind; [apply keeps_lift | intros pA].
  apply keeps_bind; [apply keeps_lift | intros pB].
  apply keeps_bind; [apply keeps_lift | intros pAF].
  apply keeps_bind; [apply keeps_lift | intros pBF].
  apply keeps_bind; [| intros _; apply pushLinePoint_keeps_triangulation].
  apply keeps_for_each. intros p. apply pushLinePoint_keeps_triangulation.
Qed.

Lemma pushLine_keeps_triangulation geom s n mesh points :
  keeps tr_signpostTri (pushLine geom s n mesh points).
Proof.
  intros st. unfold pushLine. rewrite run_bind. cbn [get].
  rewrite run_bind. cbn [put].
  assert (Hrest : keeps tr_signpostTri
                    (lift (S := Tracing R) (front points) ≫= fun first =>
                     pushLinePoint geom s first ≫= fun _ =>
                     for_each (seq 0 (length points - 1)) (pushSegment geom s n mesh points))).
  { apply keeps_bind; [apply keeps_lift | intros first].
    apply keeps_bind; [apply pushLinePoint_keeps_triangulation | intros _].
    apply keeps_for_each. intros i. apply pushSegment_keeps_triangulation. }
  rewrite Hrest. reflexivity.
Qed.

(* Whatever its outcome, the nudge leaves the triangulation as it was or
   with the length of the traced edge replaced. *)
Lemma traceShortened_changes_one_length (e : Edge) (st : Tracing R) :
  tr_signpostTri (snd (traceShortened e st)) = tr_signpostTri st \/
  exists len : R,
    tr_signpostTri (snd (traceShortened e st)) = with_length (tr_signpostTri st) e len.
Proof.
  destruct st as [tri lines]. cbn [tr_signpostTri].
  destruct (at_index (intrinsicEdgeLengths tri) e) as [oldLen | what |] eqn:Hat.
  - assert (Hold : intrinsicEdgeLengths tri !! e = Some oldLen).
    { unfold at_index in Hat.
      destruct (_ !! _); [injection Hat as ->; reflexivity | discriminate Hat]. }
    assert (He : (e < length (intrinsicEdgeLengths tri))%nat)
      by (eapply lookup_lt_Some; exact Hold).
    destruct (traceHalfedge (with_length tri e (rmul oldLen lit_999))
                (halfedge (tri_mesh tri) e) false) as [points | what |] eqn:Htrace.
    + left. rewrite (traceShortened_returns tri lines e oldLen points Hold Htrace).
      reflexivity.
    + right. exists (rmul oldLen lit_999).
      unfold traceShortened. rewrite run_bind. cbn [get tr_signpostTri tr_lines].
      rewrite run_bind. unfold lift at 1. rewrite Hat.
      rewrite run_bind. unfold lift at 1. rewrite set_intrinsicEdgeLength_Ok by exact He.
      rewrite run_bind. cbn [put].
      rewrite run_bind. unfold lift at 1. rewrite Htrace. reflexivity.
    + right. exists (rmul oldLen lit_999).
      unfold traceShortened. rewrite run_bind. cbn [get tr_signpostTri tr_lines].
      rewrite run_bind. unfold lift at 1. rewrite Hat.
      rewrite run_bind. unfold lift at 1. rewrite set_intrinsicEdgeLength_Ok by exact He.
      rewrite run_bind. cbn [put].
      rewrite run_bind. unfold lift at 1. rewrite Htrace. reflexivity.
  - left. unfold traceShortened. rewrite run_bind. cbn [get tr_signpostTri tr_lines].
    rewrite run_bind. unfold lift at 1. rewrite Hat. reflexivity.
  - left. unfold traceShortened. rewrite run_bind. cbn [get tr_signpostTri tr_lines].
    rewrite run_bind. unfold lift at 1. rewrite Hat. reflexivity.
Qed.

(** X16.  Tracing an edge reads and writes the length of that edge only:
    whatever the outcome (the trace may throw, the path may be empty, a
    change of face may throw), the length of every other edge, the two
    meshes of the triangulation and its signposts are what they were. *)
Theorem traceEdge_touches_no_other_edge
    (bubbleGeom : VertexPositionGeometry R) (relativeScale : R) (nPoints : Z)
    (e e' : Edge) (st : Tracing R) :
  e' <> e ->
  intrinsicEdgeLengths
    (tr_signpostTri (snd (traceEdge bubbleGeom relativeScale nPoints e st))) !! e'
    = intrinsicEdgeLengths (tr_signpostTri st) !! e' /\
  inputMesh (tr_signpostTri (snd (traceEdge bubbleGeom relativeScale nPoints e st)))
    = inputMesh (tr_signpostTri st) /\
  tri_mesh (tr_signpostTri (snd (traceEdge bubbleGeom relativeScale nPoints e st)))
    = tri_mesh (tr_signpostTri st) /\
  signposts (tr_signpostTri (snd (traceEdge bubbleGeom relativeScale nPoints e st)))
    = signposts (tr_signpostTri st).
Proof.
  intros Hne.
  assert (Hrun : tr_signpostTri (snd (traceEdge bubbleGeom relativeScale nPoints e st))
                 = tr_signpostTri (snd (traceShortened e st))).
  { unfold traceEdge. rewrite run_bind.
    destruct (traceShortened e st) as [[points | what |] st1]; try reflexivity.
    rewrite run_bind. cbn [get snd]. apply pushLine_keeps_triangulation. }
  rewrite Hrun.
  destruct (traceShortened_changes_one_length e st) as [-> | [len ->]].
  - repeat split.
  - unfold with_length. cbn. split; [| repeat split].
    apply list_lookup_insert_ne. congruence.
Qed.

End TracingFrame.

Section SavingTwice.
Context {R T : Type} `{!IOStreams T}.

(** X17.  Opening the file empties it: saving the same matrix again to
    the same path leaves the file with the triplets once, not twice. *)
Theorem saveMatrix_twice_overwrites
    (filename : string) (matrix : SparseMatrix T) (w : World R) :
  opens_for_writing (w_files w) filename = true ->
  opens_for_writing (w_files (saved_world w filename matrix)) filename = true ->
  Z.of_nat (length (outer matrix)) <= INT_MAX ->
  (forall (row col : Z) (val : T),
     (row, col, val) ∈ stored_entries matrix -> 0 <= row <= INT_MAX) ->
  fst (saveMatrix filename matrix (snd (saveMatrix filename matrix w))) = Ok tt /\
  w_files (snd (saveMatrix filename matrix (snd (saveMatrix filename matrix w))))
    = w_files (snd (saveMatrix filename matrix w)) /\
  w_files (snd (saveMatrix filename matrix w)) !! filename
    = Some (concat_text (map triplet_text (stored_entries matrix))).
Proof.
  intros Hopen Hopen' Hcols Hrows.
  rewrite (saveMatrix_returns filename matrix w Hopen Hcols Hrows). cbn [snd].
  rewrite (saveMatrix_returns filename matrix _ Hopen' Hcols Hrows). cbn [fst snd].
  split; [reflexivity |]. unfold saved_world. cbn [w_files]. split.
  - apply insert_insert_eq.
  - apply lookup_insert_eq.
Qed.

End SavingTwice.

Section OnTheTriangleOnceMore.
#[local] Existing Instance Triangle.meshTypes.
#[local] Existing Instance Triangle.geometryCentral.
#[local] Existing Instance Triangle.bubbleOffsetLib.

Lemma traceEdge_touches_no_other_edge_witness :
  intrinsicEdgeLengths
    (tr_signpostTri
       (snd (traceEdge (GeometryCentral0 := TriangleVariants.failing_tracer)
               (Triangle.flat_geometry (R := float)) lit_0 1 0%nat
               (mkTracing Triangle.unit_triangulation [])))) !! 1%nat
  = Some lit_1.
Proof.
  exact (proj1 (traceEdge_touches_no_other_edge
                  (GeometryCentral0 := TriangleVariants.failing_tracer)
                  (Triangle.flat_geometry (R := float)) lit_0 1 0%nat 1%nat
                  (mkTracing Triangle.unit_triangulation []) ltac:(discriminate))).
Defined.

Lemma small_matrix_path_opens :
  opens_for_writing (IOStreams := Triangle.ioStreams)
    (w_files (Triangle.empty_world (R := float))) "L.spmat" = true.
Proof. reflexivity. Qed.

Lemma small_matrix_path_opens_again :
  opens_for_writing (IOStreams := Triangle.ioStreams)
    (w_files (saved_world (IOStreams0 := Triangle.ioStreams)
                (Triangle.empty_world (R := float)) "L.spmat" Triangle.small_matrix))
    "L.spmat" = true.
Proof. reflexivity. Qed.

Lemma saveMatrix_twice_overwrites_witness :
  w_files
    (snd (saveMatrix (IOStreams0 := Triangle.ioStreams) "L.spmat" Triangle.small_matrix
            (snd (saveMatrix (IOStreams0 := Triangle.ioStreams) "L.spmat"
                    Triangle.small_matrix (Triangle.empty_world (R := float))))))
  = w_files
      (snd (saveMatrix (IOStreams0 := Triangle.ioStreams) "L.spmat" Triangle.small_matrix
              (Triangle.empty_world (R := float)))).
Proof.
  exact (proj1 (proj2 (saveMatrix_twice_overwrites (IOStreams0 := Triangle.ioStreams)
                         "L.spmat" Triangle.small_matrix (Triangle.empty_world (R := float))
                         small_matrix_path_opens small_matrix_path_opens_again
                         ltac:(unfold INT_MAX; cbn; lia) small_matrix_rows))).
Defined.

End OnTheTriangleOnceMore.
